(** * polymodels.models: polymorphic type registration and type casting

    A shallow embedding of [polymodels/models.py]: the [class_prepared]
    handler [prepare_polymorphic_model], which records on every concrete
    polymorphic ancestor of a new model class how to reach that class, and
    the two methods of [BasePolymorphicModel], [type_cast] and [save].

    Python classes are identified by their position in the list of class
    definitions (a class statement can only name bases that already exist);
    the attributes the handler sets on [_meta] live in a store keyed by
    class, because they are shared by every reader of the class. *)

From Stdlib Require Import ZArith Ascii String List Bool Lia.
From stdpp Require Import base option list gmap strings fin_maps.

Local Open Scope string_scope.
Local Open Scope list_scope.
Local Open Scope nat_scope.

(** ** Classes *)

Abbreviation class_id := nat.

(** What a relation field points to, [rel.to]: a class, or the name of
    one while the reference is still unresolved. *)
Inductive rel_target :=
| RelTo (c : class_id)
| RelName (model : string).

(** A model field, as far as [isinstance(f, models.ForeignKey)] and
    [f.rel.to] can tell ([OneToOneField] is a [ForeignKey] subclass). *)
Inductive Field :=
| ForeignKey (rel : rel_target)
| OtherField.

(** The part of [cls._meta] that the handler only reads. *)
Record Options := {
  object_name : string;
  abstract : bool;
  proxy : bool;
  fields : list (string * Field)
}.

(** A class object.  [cls_content_type_field_name] is what
    [getattr(cls, 'content_type_field_name')] finds ([None]: the lookup
    raises [AttributeError]). *)
Record PyClass := {
  cls_module : string;
  cls_name : string;
  cls_bases : list class_id;
  cls_content_type_field_name : option string;
  cls_meta : Options
}.

(** The classes that exist before any application model is defined, in
    import order. *)
Definition object_ : class_id := 0.
Definition Model : class_id := 1.
Definition ContentType : class_id := 2.
Definition BasePolymorphicModel : class_id := 3.
Definition PolymorphicModel : class_id := 4.

Definition plain_meta (name : string) (abs : bool) : Options :=
  {| object_name := name; abstract := abs; proxy := false; fields := [] |}.

Definition object_class : PyClass :=
  {| cls_module := "__builtin__"; cls_name := "object"; cls_bases := [];
     cls_content_type_field_name := None;
     cls_meta := plain_meta "object" false |}.

Definition Model_class : PyClass :=
  {| cls_module := "django.db.models.base"; cls_name := "Model";
     cls_bases := [object_];
     cls_content_type_field_name := None;
     cls_meta := plain_meta "Model" false |}.

Definition ContentType_class : PyClass :=
  {| cls_module := "django.contrib.contenttypes.models";
     cls_name := "ContentType"; cls_bases := [Model];
     cls_content_type_field_name := None;
     cls_meta := plain_meta "ContentType" false |}.

Definition BasePolymorphicModel_class : PyClass :=
  {| cls_module := "polymodels.models"; cls_name := "BasePolymorphicModel";
     cls_bases := [Model];
     cls_content_type_field_name := None;
     cls_meta := plain_meta "BasePolymorphicModel" true |}.

Definition PolymorphicModel_class : PyClass :=
  {| cls_module := "polymodels.models"; cls_name := "PolymorphicModel";
     cls_bases := [BasePolymorphicModel];
     cls_content_type_field_name := Some "content_type";
     cls_meta :=
       {| object_name := "PolymorphicModel"; abstract := true; proxy := false;
          fields := [("content_type", ForeignKey (RelTo ContentType))] |} |}.

Definition prelude : list PyClass :=
  [object_class; Model_class; ContentType_class;
   BasePolymorphicModel_class; PolymorphicModel_class].

(** The class table: every class defined so far, oldest first. *)
Definition hierarchy := list PyClass.

Definition get_class (T : hierarchy) (c : class_id) : PyClass :=
  nth c T object_class.

Definition bases (T : hierarchy) (c : class_id) : list class_id :=
  cls_bases (get_class T c).

Definition meta (T : hierarchy) (c : class_id) : Options :=
  cls_meta (get_class T c).

(** Bases are defined before the class that names them. *)
Definition wf_hierarchy (T : hierarchy) : Prop :=
  ∀ c b, b ∈ bases T c → b < c.

Definition wf_hierarchyb (T : hierarchy) : bool :=
  forallb (fun c => forallb (fun b => b <? c) (bases T c)) (seq 0 (length T)).

(** [issubclass(c, d)]: [d] is [c] or is reachable through [__bases__].
    No inheritance path is longer than the class table. *)
Fixpoint issubclass_depth (T : hierarchy) (depth : nat) (c d : class_id) : bool :=
  (c =? d) ||
  match depth with
  | 0 => false
  | S depth' => existsb (fun b => issubclass_depth T depth' b d) (bases T c)
  end.

Definition issubclass (T : hierarchy) (c d : class_id) : bool :=
  issubclass_depth T (length T) c d.

(** The same relation, as the closure of the base lists. *)
Inductive subclass (T : hierarchy) : class_id → class_id → Prop :=
| subclass_refl c : subclass T c c
| subclass_base c b d : b ∈ bases T c → subclass T b d → subclass T c d.

(** *** Method resolution order *)








(** ** Strings *)

Definition lower_ascii (a : ascii) : ascii :=
  let n := nat_of_ascii a in
  if (65 <=? n) && (n <=? 90) then ascii_of_nat (n + 32) else a.

(** [str.lower()] on a class name. *)
Fixpoint lower (s : string) : string :=
  match s with
  | EmptyString => EmptyString
  | String a s' => String (lower_ascii a) (lower s')
  end.

(** [sep.join(l)]. *)
Fixpoint join (sep : string) (l : list string) : string :=
  match l with
  | [] => ""
  | x :: rest =>
      match rest with
      | [] => x
      | _ :: _ => String.append x (String.append sep (join sep rest))
      end
  end.

(** [django.db.models.sql.constants.LOOKUP_SEP]. *)
Definition LOOKUP_SEP : string := "__".

(** ** The attributes the handler sets on [_meta] *)

(** One entry of [_subclass_accessors]:
    [(tuple(attrs), proxy, lookup)]. *)
Abbreviation Accessor := (list string * option class_id * string)%type.

Definition EMPTY_ACCESSOR : Accessor := ([], None, "").

Record MetaState := {
  _subclass_accessors : option (gmap class_id Accessor);
  _is_polymorphic_root : option bool
}.

Definition fresh_meta : MetaState :=
  {| _subclass_accessors := None; _is_polymorphic_root := None |}.

Abbreviation store := (gmap class_id MetaState).

Definition meta_state (s : store) (c : class_id) : MetaState :=
  default fresh_meta (s !! c).

Definition set_subclass_accessors (c : class_id) (t : gmap class_id Accessor)
    (s : store) : store :=
  <[c := {| _subclass_accessors := Some t;
            _is_polymorphic_root := _is_polymorphic_root (meta_state s c) |}]> s.

Definition set_is_polymorphic_root (c : class_id) (b : bool) (s : store) : store :=
  <[c := {| _subclass_accessors := _subclass_accessors (meta_state s c);
            _is_polymorphic_root := Some b |}]> s.

(** ** Instances and exceptions *)

(** A row of the content type registry. *)
Record ContentTypeRow := {
  ct_pk : Z;
  ct_app_label : string;
  ct_model : string
}.

Inductive value :=
| VNone
| VInt (z : Z)
| VStr (v : string)
| VContentType (ct : ContentTypeRow).

(** A model instance: its class, its primary key, the database alias of
    [_state.db] and its attribute values. *)
Record Instance := {
  inst_class : class_id;
  pk : option Z;
  _state_db : option string;
  inst_attrs : gmap string value
}.

(** The three messages of [ImproperlyConfigured]. *)
Inductive config_error :=
| MissingFieldName
| InexistentField (module name field : string)
| NotForeignKeyToContentType (module name field : string).

Inductive exn :=
| ImproperlyConfigured (why : config_error)
| AttributeError (attr : string)
| UnboundLocalError (var : string)
| DoesNotExist (attr : string)
| TypeError (self : Instance) (to : class_id)
| TypeError_isinstance_arg2.

(** How a call ends: it returns, it raises, or the model ran out of fuel
    before the call ended. *)
Inductive outcome (A : Type) :=
| Return (a : A)
| Raise (e : exn)
| OutOfFuel.

Arguments Return {A} a.
Arguments Raise {A} e.
Arguments OutOfFuel {A}.

(** ** prepare_polymorphic_model *)

(** [opts.get_field(name)]; [None] stands for [FieldDoesNotExist]. *)
Definition get_field (o : Options) (name : string) : option Field :=
  snd <$> List.find (fun p => String.eqb (fst p) name) (fields o).

Definition is_ForeignKey (f : Field) : bool :=
  match f with
  | ForeignKey _ => true
  | OtherField => false
  end.

(** [f.rel.to is c]. *)
Definition rel_to_is (f : Field) (c : class_id) : bool :=
  match f with
  | ForeignKey (RelTo d) => d =? c
  | _ => false
  end.

(** The loop [while parents: ...] of the handler.  [parents], [attrs] and
    [is_polymorphic_root] are the local variables of that name
    ([is_polymorphic_root] is [None] while unbound); one unit of fuel pays
    for one iteration. *)
Fixpoint while_parents (T : hierarchy) (fuel : nat) (sender : class_id)
    (proxy_ : option class_id) (parents : list class_id) (attrs : list string)
    (is_polymorphic_root : option bool) (s : store)
    : outcome (option bool) * store :=
  match parents with
  | [] => (Return is_polymorphic_root, s)
  | parent :: parents' =>
      match fuel with
      | 0 => (OutOfFuel, s)
      | S fuel' =>
          if issubclass T parent BasePolymorphicModel then
            let parent_opts := meta T parent in
            if negb (abstract parent_opts) then
              let is_polymorphic_root' := Some (parent =? sender) in
              let lookup := join LOOKUP_SEP (firstn 1 attrs) in
              match _subclass_accessors (meta_state s parent) with
              | None => (Raise (AttributeError "_subclass_accessors"), s)
              | Some t =>
                  let s' :=
                    set_subclass_accessors parent
                      (<[sender := (attrs, proxy_, lookup)]> t) s in
                  let attrs' :=
                    if negb (proxy parent_opts)
                    then lower (object_name parent_opts) :: attrs
                    else attrs in
                  while_parents T fuel' sender proxy_
                    (bases T parent ++ parents') attrs' is_polymorphic_root' s'
              end
            else
              while_parents T fuel' sender proxy_
                (bases T parent ++ parents') attrs is_polymorphic_root s
          else
            while_parents T fuel' sender proxy_ parents' attrs
              is_polymorphic_root s
      end
  end.

Definition prepare_polymorphic_model (T : hierarchy) (fuel : nat)
    (sender : class_id) (s : store) : outcome unit * store :=
  if issubclass T sender BasePolymorphicModel then
    let cls := get_class T sender in
    let opts := cls_meta cls in
    match cls_content_type_field_name cls with
    | None => (Raise (ImproperlyConfigured MissingFieldName), s)
    | Some content_type_field_name =>
        match get_field opts content_type_field_name with
        | None =>
            (Raise (ImproperlyConfigured
                      (InexistentField (cls_module cls) (cls_name cls)
                         content_type_field_name)), s)
        | Some content_type_field =>
            if negb (is_ForeignKey content_type_field)
               || negb (rel_to_is content_type_field ContentType)
            then
              (Raise (ImproperlyConfigured
                        (NotForeignKeyToContentType (cls_module cls)
                           (cls_name cls) content_type_field_name)), s)
            else
              let s0 := set_subclass_accessors sender ∅ s in
              let proxy_ := if proxy opts then Some sender else None in
              match while_parents T fuel sender proxy_ [sender] [] None s0 with
              | (Return (Some is_polymorphic_root), s1) =>
                  (Return tt,
                   set_is_polymorphic_root sender is_polymorphic_root s1)
              | (Return None, s1) =>
                  (Raise (UnboundLocalError "is_polymorphic_root"), s1)
              | (Raise e, s1) => (Raise e, s1)
              | (OutOfFuel, s1) => (OutOfFuel, s1)
              end
        end
    end
  else (Return tt, s).

(** The successive values of [parent]: what [parents.pop(0)] returns,
    iteration after iteration. *)
Fixpoint visited (T : hierarchy) (fuel : nat) (parents : list class_id)
    : list class_id :=
  match parents with
  | [] => []
  | parent :: parents' =>
      match fuel with
      | 0 => []
      | S fuel' =>
          parent ::
          visited T fuel'
            (if issubclass T parent BasePolymorphicModel
             then bases T parent ++ parents'
             else parents')
      end
  end.

(** ** The traversal, without fuel *)

(** Depth-first, left-to-right walk of the base lists from [c]; only the
    bases of [BasePolymorphicModel] subclasses are followed. *)
Fixpoint dfs (T : hierarchy) (depth : nat) (c : class_id) : list class_id :=
  c ::
  (if issubclass T c BasePolymorphicModel then
     match depth with
     | 0 => []
     | S depth' => flat_map (dfs T depth') (bases T c)
     end
   else []).

Definition visit_order (T : hierarchy) (parents : list class_id)
    : list class_id :=
  flat_map (dfs T (length T)) parents.

(** Iterations the loop needs for [sender]. *)
Definition traversal_cost (T : hierarchy) (sender : class_id) : nat :=
  length (visit_order T [sender]).

(** [parent] writes an entry and is counted for [is_polymorphic_root]. *)
Definition records (T : hierarchy) (parent : class_id) : bool :=
  issubclass T parent BasePolymorphicModel && negb (abstract (meta T parent)).

(** [parent] adds its name to [attrs]. *)
Definition links (T : hierarchy) (parent : class_id) : bool :=
  records T parent && negb (proxy (meta T parent)).

Definition accessor_name (T : hierarchy) (c : class_id) : string :=
  lower (object_name (meta T c)).

(** One iteration of the loop on the locals [attrs] and
    [is_polymorphic_root] and on the store. *)
Definition loop_body (T : hierarchy) (sender : class_id)
    (proxy_ : option class_id) (parent : class_id) (attrs : list string)
    (is_polymorphic_root : option bool) (s : store)
    : outcome (list string * option bool) * store :=
  if records T parent then
    match _subclass_accessors (meta_state s parent) with
    | None => (Raise (AttributeError "_subclass_accessors"), s)
    | Some t =>
        (Return (if negb (proxy (meta T parent))
                 then accessor_name T parent :: attrs else attrs,
                 Some (parent =? sender)),
         set_subclass_accessors parent
           (<[sender := (attrs, proxy_, join LOOKUP_SEP (firstn 1 attrs))]> t) s)
    end
  else (Return (attrs, is_polymorphic_root), s).

Fixpoint run_visits (T : hierarchy) (sender : class_id)
    (proxy_ : option class_id) (order : list class_id) (attrs : list string)
    (is_polymorphic_root : option bool) (s : store)
    : outcome (option bool) * store :=
  match order with
  | [] => (Return is_polymorphic_root, s)
  | parent :: order' =>
      match loop_body T sender proxy_ parent attrs is_polymorphic_root s with
      | (Return (attrs', root'), s') =>
          run_visits T sender proxy_ order' attrs' root' s'
      | (Raise e, s') => (Raise e, s')
      | (OutOfFuel, s') => (OutOfFuel, s')
      end
  end.

(** ** Reachable stores *)

(** The stores the handler can leave behind: it starts with no attribute
    set and is called any number of times, for any sender; each call
    returns or raises. *)
Inductive reachable (T : hierarchy) : store → Prop :=
| reachable_init : reachable T ∅
| reachable_step fuel sender s :
    reachable T s →
    fst (prepare_polymorphic_model T fuel sender s) ≠ OutOfFuel →
    reachable T (snd (prepare_polymorphic_model T fuel sender s)).

(** The table of class [c], when it is installed. *)
Definition accessors (s : store) (c : class_id)
    : option (gmap class_id Accessor) :=
  _subclass_accessors (meta_state s c).

(** The root flag of class [c], when it is set. *)
Definition is_root (s : store) (c : class_id) : option bool :=
  _is_polymorphic_root (meta_state s c).

(** The proxy marker of entries written for [sender]. *)
Definition proxy_marker (T : hierarchy) (sender : class_id) : option class_id :=
  if proxy (meta T sender) then Some sender else None.

(** [class_prepared] is sent for each class in turn; a handler that raises
    aborts the definition, and nothing after it runs. *)
Fixpoint prepare_all (T : hierarchy) (fuel : nat) (senders : list class_id)
    (s : store) : outcome unit * store :=
  match senders with
  | [] => (Return tt, s)
  | sender :: senders' =>
      match prepare_polymorphic_model T fuel sender s with
      | (Return _, s') => prepare_all T fuel senders' s'
      | r => r
      end
  end.

(** ** type_cast and save *)

(** Modelled from the spec: [polymodels.utils.copy_fields] is not among the
    sources.  It builds a new instance of the class [to] that carries the
    field values of [src]. *)
Definition copy_fields (src : Instance) (to : class_id) : Instance :=
  {| inst_class := to; pk := pk src; _state_db := None;
     inst_attrs := inst_attrs src |}.

(** [if proxy: type_casted = copy_fields(type_casted, proxy)]. *)
Definition reinterpret (proxy_ : option class_id) (type_casted : Instance)
    : Instance :=
  match proxy_ with
  | Some p => copy_fields type_casted p
  | None => type_casted
  end.

Definition setattr (self : Instance) (name : string) (v : value) : Instance :=
  {| inst_class := inst_class self; pk := pk self;
     _state_db := _state_db self;
     inst_attrs := <[name := v]> (inst_attrs self) |}.

Section Methods.

Variable T : hierarchy.

(** Reading a relation accessor of an instance, [getattr(obj, attr)]:
    the persistence layer returns the related row or raises. *)
Variable related : Instance → string → exn + Instance.

(** [content_type.model_class()] ([None] when the registry knows no
    class for the row). *)
Variable model_class : ContentTypeRow → option class_id.

(** [polymodels.utils.get_content_type(cls, db)]. *)
Variable get_content_type : class_id → option string → ContentTypeRow.

(** [models.Model.save], with whatever it returns. *)
Variable R : Type.
Variable Model_save : Instance → R.

Definition isinstance (obj : Instance) (c : class_id) : bool :=
  issubclass T (inst_class obj) c.

(** [for attr in attrs: type_casted = getattr(type_casted, attr)]. *)
Fixpoint walk (attrs : list string) (type_casted : Instance)
    : exn + Instance :=
  match attrs with
  | [] => inr type_casted
  | attr :: attrs' =>
      match related type_casted attr with
      | inr o => walk attrs' o
      | inl e => inl e
      end
  end.

(** The target of a cast: [to], or the class of the stored content type. *)
Definition resolve_to (self : Instance) (to : option class_id)
    : exn + option class_id :=
  match to with
  | Some c => inr (Some c)
  | None =>
      match cls_content_type_field_name (get_class T (inst_class self)) with
      | None => inl (AttributeError "content_type_field_name")
      | Some name =>
          match inst_attrs self !! name with
          | Some (VContentType content_type) =>
              inr (model_class content_type)
          | Some _ => inl (AttributeError "model_class")
          | None => inl (DoesNotExist name)
          end
      end
  end.

(** [_subclass_accessors.get(to, EMPTY_ACCESSOR)]. *)
Definition get_accessor (t : gmap class_id Accessor) (to : option class_id)
    : Accessor :=
  match to with
  | Some c => default EMPTY_ACCESSOR (t !! c)
  | None => EMPTY_ACCESSOR
  end.

Definition type_cast (s : store) (self : Instance) (to : option class_id)
    : exn + Instance :=
  match resolve_to self to with
  | inl e => inl e
  | inr to =>
      match _subclass_accessors (meta_state s (inst_class self)) with
      | None => inl (AttributeError "_subclass_accessors")
      | Some t =>
          let '(attrs, proxy_, _lookup) := get_accessor t to in
          match walk attrs self with
          | inl e => inl e
          | inr type_casted =>
              let type_casted := reinterpret proxy_ type_casted in
              match to with
              | None => inl TypeError_isinstance_arg2
              | Some to =>
                  if negb (isinstance type_casted to)
                  then inl (TypeError self to)
                  else inr type_casted
              end
          end
      end
  end.

Definition save (self : Instance) : exn + R :=
  match pk self with
  | None =>
      let content_type :=
        get_content_type (inst_class self) (_state_db self) in
      match cls_content_type_field_name (get_class T (inst_class self)) with
      | None => inl (AttributeError "content_type_field_name")
      | Some name =>
          inr (Model_save (setattr self name (VContentType content_type)))
      end
  | Some _ => inr (Model_save self)
  end.

End Methods.

(** ** What the statements below speak of *)

(** The preconditions of registration, as violations: no field name is
    declared, the declared field does not exist, the declared field is
    not a foreign key to [ContentType]. *)
Definition no_field_name (T : hierarchy) (sender : class_id) : Prop :=
  cls_content_type_field_name (get_class T sender) = None.

Definition field_missing (T : hierarchy) (sender : class_id) : Prop :=
  ∃ name, cls_content_type_field_name (get_class T sender) = Some name ∧
          get_field (meta T sender) name = None.

Definition field_of_wrong_kind (T : hierarchy) (sender : class_id) : Prop :=
  ∃ name f, cls_content_type_field_name (get_class T sender) = Some name ∧
            get_field (meta T sender) name = Some f ∧
            f ≠ ForeignKey (RelTo ContentType).

(** Same class, same key, same field values. *)
Definition equivalent (a b : Instance) : Prop :=
  inst_class a = inst_class b ∧ pk a = pk b ∧ inst_attrs a = inst_attrs b.

(** While a class that records entries has a table, the table holds the
    class's own entry: the empty chain. *)
Definition own_entries (T : hierarchy) (s : store) : Prop :=
  ∀ c t, records T c = true → accessors s c = Some t →
         t !! c = Some ([], proxy_marker T c, "").

(** The accessor names of the classes of [pre] that add one, the last
    class first. *)
Definition chain_before (T : hierarchy) (pre : list class_id) : list string :=
  rev (map (accessor_name T) (List.filter (links T) pre)).

(** [c] has no concrete polymorphic ancestor but itself. *)
Definition no_concrete_ancestor (T : hierarchy) (c : class_id) : Prop :=
  ∀ a, a ≠ c → issubclass T c a = true → records T a = false.

(** Every class has at most one base. *)
Definition single_inheritance (T : hierarchy) : Prop :=
  ∀ c, length (bases T c) ≤ 1.

Definition single_inheritanceb (T : hierarchy) : bool :=
  forallb (fun c => length (bases T c) <=? 1) (seq 0 (length T)).

(** The senders of [class_prepared]: every class that is not abstract, in
    definition order. *)
Definition class_prepared (T : hierarchy) : list class_id :=
  List.filter (fun c => negb (abstract (meta T c))) (seq 0 (length T)).

(** The store once every class of the table is defined. *)
Definition prepare_hierarchy (T : hierarchy) (fuel : nat)
    : outcome unit * store :=
  prepare_all T fuel (class_prepared T) ∅.

(** ** Example class tables and databases *)

(** A three-level concrete hierarchy, Root -> Middle -> Leaf. *)
Definition concrete_model (name : string) (base : class_id) : PyClass :=
  {| cls_module := "app.models"; cls_name := name; cls_bases := [base];
     cls_content_type_field_name := Some "content_type";
     cls_meta :=
       {| object_name := name; abstract := false; proxy := false;
          fields := [("content_type", ForeignKey (RelTo ContentType))] |} |}.

Definition Root : class_id := 5.
Definition Middle : class_id := 6.
Definition Leaf : class_id := 7.

Definition linear3 : hierarchy :=
  prelude ++ [concrete_model "Root" PolymorphicModel;
              concrete_model "Middle" Root;
              concrete_model "Leaf" Middle].

(** The store once Root and Middle are defined, and once Leaf is too. *)
Definition registered2 : store :=
  snd (prepare_all linear3 10 [Root; Middle] ∅).

Definition registered3 : store :=
  snd (prepare_all linear3 10 [Root; Middle; Leaf] ∅).

(** A concrete class and a proxy of it. *)
Definition proxy_model (name : string) (base : class_id) : PyClass :=
  {| cls_module := "app.models"; cls_name := name; cls_bases := [base];
     cls_content_type_field_name := Some "content_type";
     cls_meta :=
       {| object_name := name; abstract := false; proxy := true;
          fields := [("content_type", ForeignKey (RelTo ContentType))] |} |}.

Definition Animal : class_id := 5.
Definition Pet : class_id := 6.

Definition proxied : hierarchy :=
  prelude ++ [concrete_model "Animal" PolymorphicModel;
              proxy_model "Pet" Animal].

Definition registered_proxied : store :=
  snd (prepare_all proxied 10 [Animal; Pet] ∅).

(** A polymorphic class that forgot its [content_type_field_name]. *)
Definition Nameless : class_id := 5.

Definition nameless1 : hierarchy :=
  prelude ++
  [{| cls_module := "app.models"; cls_name := "Nameless";
      cls_bases := [BasePolymorphicModel];
      cls_content_type_field_name := None;
      cls_meta := plain_meta "Nameless" false |}].

(** Two abstract polymorphic bases and a concrete class that inherits
    from both. *)
Definition abstract_base (name : string) : PyClass :=
  {| cls_module := "app.models"; cls_name := name;
     cls_bases := [BasePolymorphicModel];
     cls_content_type_field_name := None;
     cls_meta := plain_meta name true |}.

Definition Tagged : class_id := 5.
Definition Dated : class_id := 6.
Definition Note : class_id := 7.

Definition two_bases : hierarchy :=
  prelude ++
  [abstract_base "Tagged"; abstract_base "Dated";
   {| cls_module := "app.models"; cls_name := "Note";
      cls_bases := [Tagged; Dated];
      cls_content_type_field_name := Some "kind";
      cls_meta :=
        {| object_name := "Note"; abstract := false; proxy := false;
           fields := [("kind", ForeignKey (RelTo ContentType))] |} |}].

Definition new_instance (c : class_id) (key : option Z) : Instance :=
  {| inst_class := c; pk := key; _state_db := None; inst_attrs := ∅ |}.

(** A database in which no row has a child row. *)
Definition no_rows (obj : Instance) (attr : string) : exn + Instance :=
  inl (DoesNotExist attr).

(** A database in which every Root row has a Middle row and every Middle
    row a Leaf row, with the same key. *)
Definition child_rows (obj : Instance) (attr : string) : exn + Instance :=
  if (inst_class obj =? Root) && String.eqb attr "middle"
  then inr (new_instance Middle (pk obj))
  else if (inst_class obj =? Middle) && String.eqb attr "leaf"
  then inr (new_instance Leaf (pk obj))
  else inl (DoesNotExist attr).

(** A registry that knows no class. *)
Definition no_model_class (ct : ContentTypeRow) : option class_id := None.

(** A registry that numbers content types by class. *)
Definition content_type_of (c : class_id) (db : option string)
    : ContentTypeRow :=
  {| ct_pk := Z.of_nat c; ct_app_label := "app";
     ct_model := accessor_name linear3 c |}.

(** The registry read the other way. *)
Definition class_of_content_type (ct : ContentTypeRow) : option class_id :=
  Some (Z.to_nat (ct_pk ct)).

(** A saved Leaf row whose stored discriminator says Root. *)
Definition stale_leaf : Instance :=
  setattr (new_instance Leaf (Some 3%Z)) "content_type"
    (VContentType (content_type_of Root None)).

(** ** What the further statements speak of *)

(** The class passes the three checks of the handler. *)
Definition discriminator_declared (T : hierarchy) (sender : class_id) : Prop :=
  ∃ name, cls_content_type_field_name (get_class T sender) = Some name
          ∧ get_field (meta T sender) name
            = Some (ForeignKey (RelTo ContentType)).

(** Every chain recorded on another class for a concrete class that is
    not a proxy ends with the accessor name of that class. *)
Definition chains_end_at_target (T : hierarchy) (s : store) : Prop :=
  ∀ c t k (attrs : list string) p lookup,
    accessors s c = Some t → t !! k = Some (attrs, p, lookup) →
    c ≠ k → links T k = true →
    last attrs = Some (accessor_name T k).

(** Class [a] has no [_subclass_accessors] yet. *)
Definition lacks_table (s : store) (a : class_id) : bool :=
  match accessors s a with
  | None => true
  | Some _ => false
  end.

(** * Properties *)

(** ** The class table *)

Section Hierarchy.

Variable T : hierarchy.
Hypothesis wf : wf_hierarchy T.

Lemma bases_out_of_range c : length T ≤ c → bases T c = [].
Proof.
  intros Hc. unfold bases, get_class. by rewrite nth_overflow.
Qed.

Lemma base_in_range c b : b ∈ bases T c → c < length T.
Proof.
  intros Hb. destruct (decide (c < length T)) as [|Hge]; [done|].
  rewrite bases_out_of_range in Hb by lia. by apply elem_of_nil in Hb.
Qed.

Lemma issubclass_depth_sound depth c d :
  issubclass_depth T depth c d = true → subclass T c d.
Proof.
  revert c. induction depth as [|depth IH]; intros c; simpl.
  - rewrite orb_false_r. intros ->%Nat.eqb_eq. constructor.
  - intros [->%Nat.eqb_eq|Hex]%orb_true_iff; [constructor|].
    apply existsb_exists in Hex as (b & Hb & Hsub).
    apply subclass_base with b; [by apply list_elem_of_In|by apply IH].
Qed.

Lemma issubclass_depth_complete c d :
  subclass T c d →
  ∀ depth, c ≤ depth ∨ length T ≤ c → issubclass_depth T depth c d = true.
Proof.
  induction 1 as [c|c b d Hb Hsub IH]; intros depth Hdepth.
  - destruct depth; simpl; by rewrite Nat.eqb_refl.
  - pose proof (wf _ _ Hb) as Hlt. pose proof (base_in_range _ _ Hb) as Hc.
    destruct depth as [|depth]; [lia|]. simpl.
    apply orb_true_iff. right. apply existsb_exists.
    exists b. split; [by apply list_elem_of_In|]. apply IH. lia.
Qed.

Lemma issubclass_spec c d : issubclass T c d = true ↔ subclass T c d.
Proof.
  split; [apply issubclass_depth_sound|].
  intros Hsub. apply issubclass_depth_complete; [done|]. lia.
Qed.

Lemma subclass_le c d : subclass T c d → d ≤ c.
Proof.
  induction 1 as [c|c b d Hb _ IH]; [done|].
  pose proof (wf _ _ Hb). lia.
Qed.

Lemma subclass_trans c d e : subclass T c d → subclass T d e → subclass T c e.
Proof.
  induction 1 as [c|c b d Hb _ IH]; [done|].
  intros He. eapply subclass_base; [done|]. by apply IH.
Qed.

Lemma subclass_antisym c d : subclass T c d → subclass T d c → c = d.
Proof. intros H1%subclass_le H2%subclass_le. lia. Qed.

Lemma subclass_strict c b d : b ∈ bases T c → subclass T b d → d ≠ c.
Proof.
  intros Hb Hsub%subclass_le. pose proof (wf _ _ Hb). lia.
Qed.

Lemma issubclass_refl c : issubclass T c c = true.
Proof. apply issubclass_spec. constructor. Qed.

Lemma issubclass_trans c d e :
  issubclass T c d = true → issubclass T d e = true → issubclass T c e = true.
Proof.
  rewrite !issubclass_spec. apply subclass_trans.
Qed.

(** *** The fuel-free traversal *)

Lemma dfs_depth_irrelevant d1 d2 c :
  c ≤ d1 ∨ length T ≤ c → c ≤ d2 ∨ length T ≤ c → dfs T d1 c = dfs T d2 c.
Proof.
  revert d2 c. induction d1 as [|d1 IH]; intros d2 c H1 H2.
  - assert (bases T c = []) as Hnil.
    { destruct (bases T c) as [|b l] eqn:Hb; [done|].
      assert (b ∈ bases T c) as Hin by (rewrite Hb; left).
      pose proof (wf _ _ Hin). pose proof (base_in_range _ _ Hin). lia. }
    destruct d2; simpl; rewrite ?Hnil; done.
  - destruct d2 as [|d2].
    + assert (bases T c = []) as Hnil.
      { destruct (bases T c) as [|b l] eqn:Hb; [done|].
        assert (b ∈ bases T c) as Hin by (rewrite Hb; left).
        pose proof (wf _ _ Hin). pose proof (base_in_range _ _ Hin). lia. }
      simpl; rewrite ?Hnil; done.
    + simpl. f_equal. destruct (issubclass T c BasePolymorphicModel); [|done].
      assert (∀ b, b ∈ bases T c → dfs T d1 b = dfs T d2 b) as Hext.
      { intros b Hb. pose proof (wf _ _ Hb). pose proof (base_in_range _ _ Hb).
        apply IH; lia. }
      induction (bases T c) as [|b l IHl]; [done|]. simpl.
      rewrite Hext by left. f_equal. apply IHl. intros b' Hb'. apply Hext. by right.
Qed.

Lemma dfs_unfold c :
  dfs T (length T) c =
  c :: (if issubclass T c BasePolymorphicModel
        then visit_order T (bases T c) else []).
Proof.
  unfold visit_order.
  destruct (length T) as [|n] eqn:Hlen.
  - simpl. rewrite bases_out_of_range by lia. by destruct (issubclass _ _ _).
  - simpl. f_equal. destruct (issubclass T c BasePolymorphicModel); [|done].
    assert (∀ b, b ∈ bases T c → dfs T n b = dfs T (S n) b) as Hext.
    { intros b Hb. pose proof (wf _ _ Hb). pose proof (base_in_range _ _ Hb).
      apply dfs_depth_irrelevant; lia. }
    induction (bases T c) as [|b l IHl]; [done|]. cbn [flat_map].
    rewrite Hext by left. f_equal. apply IHl. intros b' Hb'. apply Hext. by right.
Qed.

Lemma visit_order_cons c parents :
  visit_order T (c :: parents) =
  c :: visit_order T
         (if issubclass T c BasePolymorphicModel
          then bases T c ++ parents else parents).
Proof.
  unfold visit_order at 1. cbn [flat_map]. rewrite dfs_unfold.
  destruct (issubclass T c BasePolymorphicModel); [|done].
  unfold visit_order. by rewrite flat_map_app.
Qed.

End Hierarchy.

(** ** The store *)

Lemma accessors_set c t s c' :
  accessors (set_subclass_accessors c t s) c' =
  if decide (c = c') then Some t else accessors s c'.
Proof.
  unfold accessors, set_subclass_accessors, meta_state.
  rewrite lookup_insert. by case_decide.
Qed.

Lemma accessors_set_root c b s c' :
  accessors (set_is_polymorphic_root c b s) c' = accessors s c'.
Proof.
  unfold accessors, set_is_polymorphic_root, meta_state.
  rewrite lookup_insert. case_decide; by subst.
Qed.

Lemma is_root_set c t s c' :
  is_root (set_subclass_accessors c t s) c' = is_root s c'.
Proof.
  unfold is_root, set_subclass_accessors, meta_state.
  rewrite lookup_insert. case_decide; by subst.
Qed.

Lemma is_root_set_root c b s c' :
  is_root (set_is_polymorphic_root c b s) c' =
  if decide (c = c') then Some b else is_root s c'.
Proof.
  unfold is_root, set_is_polymorphic_root, meta_state.
  rewrite lookup_insert. by case_decide.
Qed.

(** ** The loop *)

Section Loop.

Variable T : hierarchy.
Variable sender : class_id.
Variable proxy_ : option class_id.

(** A property of the store that every write of the loop keeps is kept
    by the loop, whatever the fuel; [Q] holds of the classes the loop
    can visit. *)
Lemma while_parents_preserves (Q : class_id → Prop) (P : store → Prop) :
  (∀ p b, Q p → b ∈ bases T p → Q b) →
  (∀ parent attrs t s,
      Q parent → records T parent = true → P s →
      accessors s parent = Some t →
      P (set_subclass_accessors parent
           (<[sender := (attrs, proxy_, join LOOKUP_SEP (firstn 1 attrs))]> t) s)) →
  ∀ fuel parents attrs root s,
    Forall Q parents → P s →
    P (snd (while_parents T fuel sender proxy_ parents attrs root s)).
Proof.
  intros Hbases Hwrite fuel.
  induction fuel as [|fuel IH]; intros parents attrs root s HQ HP;
    destruct parents as [|parent parents]; simpl; try done.
  apply Forall_cons in HQ as [Hparent HQ].
  assert (Forall Q (bases T parent ++ parents)) as HQ'.
  { apply Forall_app. split; [|done].
    apply Forall_forall. intros b Hb. by eapply Hbases. }
  destruct (issubclass T parent BasePolymorphicModel) eqn:Hpoly; [|by apply IH].
  destruct (abstract (meta T parent)) eqn:Habs; simpl; [by apply IH|].
  destruct (_subclass_accessors (meta_state s parent)) as [t|] eqn:Ht; [|done].
  apply IH; [done|]. apply Hwrite; try done.
  unfold records. by rewrite Hpoly, Habs.
Qed.

Lemma while_parents_not_configuration_error fuel parents attrs root s why :
  fst (while_parents T fuel sender proxy_ parents attrs root s)
  ≠ Raise (ImproperlyConfigured why).
Proof.
  revert parents attrs root s.
  induction fuel as [|fuel IH]; intros parents attrs root s;
    destruct parents as [|parent parents]; simpl; try done.
  destruct (issubclass T parent BasePolymorphicModel); [|by apply IH].
  destruct (negb (abstract (meta T parent))); [|by apply IH].
  destruct (_subclass_accessors (meta_state s parent)); [by apply IH|done].
Qed.

Hypothesis wf : wf_hierarchy T.

Lemma visited_complete fuel parents :
  length (visit_order T parents) ≤ fuel →
  visited T fuel parents = visit_order T parents.
Proof.
  revert parents. induction fuel as [|fuel IH]; intros parents Hfuel;
    destruct parents as [|parent parents]; try done.
  - rewrite visit_order_cons in Hfuel by done. simpl in Hfuel. lia.
  - rewrite visit_order_cons in * by done. simpl in *.
    f_equal. apply IH. lia.
Qed.

(** With enough fuel the loop is the fold of its body over the
    traversal. *)
Lemma while_parents_run fuel parents attrs root s :
  length (visit_order T parents) ≤ fuel →
  while_parents T fuel sender proxy_ parents attrs root s =
  run_visits T sender proxy_ (visit_order T parents) attrs root s.
Proof.
  revert parents attrs root s.
  induction fuel as [|fuel IH]; intros parents attrs root s Hfuel;
    destruct parents as [|parent parents]; try done.
  - rewrite visit_order_cons in Hfuel by done. simpl in Hfuel. lia.
  - rewrite visit_order_cons in * by done. simpl in Hfuel.
    cbn [while_parents run_visits]. unfold loop_body, records, accessor_name.
    destruct (issubclass T parent BasePolymorphicModel); simpl;
      [|apply IH; lia].
    destruct (abstract (meta T parent)); simpl; [apply IH; lia|].
    destruct (_subclass_accessors (meta_state s parent)); [|done].
    apply IH. lia.
Qed.

End Loop.

(** Goes past the three checks of the handler, in a goal where each way
    of failing them is settled at once. *)
Ltac pass_checks :=
  match goal with
  | |- context [cls_content_type_field_name (get_class ?T ?sender)] =>
      destruct (cls_content_type_field_name (get_class T sender))
        as [?name|]; [|done];
      destruct (get_field (cls_meta (get_class T sender)) _) as [?f|];
        [|done];
      destruct (negb (is_ForeignKey _) || negb (rel_to_is _ ContentType));
        [done|]
  end.

(** ** Running the handler for every class, and checking a class table *)

Lemma wf_hierarchyb_spec T : wf_hierarchyb T = true → wf_hierarchy T.
Proof.
  unfold wf_hierarchyb. rewrite forallb_forall. intros Hall c b Hb.
  destruct (decide (c < length T)) as [Hc|Hc].
  - specialize (Hall c). rewrite forallb_forall in Hall.
    apply Nat.ltb_lt, Hall; [|by apply list_elem_of_In].
    apply in_seq. lia.
  - unfold bases, get_class in Hb. rewrite nth_overflow in Hb by lia.
    by apply elem_of_nil in Hb.
Qed.

Lemma prepare_all_reachable T fuel senders s :
  reachable T s →
  fst (prepare_all T fuel senders s) ≠ OutOfFuel →
  reachable T (snd (prepare_all T fuel senders s)).
Proof.
  revert s. induction senders as [|sender senders IH]; intros s Hs; [done|].
  cbn [prepare_all].
  pose proof (reachable_step T fuel sender s Hs) as Hstep.
  destruct (prepare_polymorphic_model T fuel sender s) as [[[]|e|] s'];
    simpl in *; intros Hfuel.
  - apply IH; [by apply Hstep|done].
  - by apply Hstep.
  - done.
Qed.

Lemma linear3_wf : wf_hierarchy linear3.
Proof. apply wf_hierarchyb_spec. reflexivity. Qed.

Lemma registered3_reachable : reachable linear3 registered3.
Proof. apply prepare_all_reachable; [constructor|]. vm_compute. discriminate. Qed.

(** ** Configuration errors *)

Lemma wrong_kind_spec f :
  negb (is_ForeignKey f) || negb (rel_to_is f ContentType) = false ↔
  f = ForeignKey (RelTo ContentType).
Proof.
  destruct f as [[c|name]|]; simpl; split; try done.
  - rewrite negb_false_iff. by intros ->%Nat.eqb_eq.
  - intros [= ->]. done.
Qed.

(** C3: registering a polymorphic type raises [ImproperlyConfigured]
    exactly when it declares no discriminator field name, or the declared
    field does not exist, or the declared field is not a foreign key to
    [ContentType]; and when it does, the store is left as it was: no
    accessor table is installed. *)
Theorem configuration_errors T fuel sender s :
  issubclass T sender BasePolymorphicModel = true →
  ((∃ why, fst (prepare_polymorphic_model T fuel sender s)
           = Raise (ImproperlyConfigured why))
   ↔ no_field_name T sender ∨ field_missing T sender
     ∨ field_of_wrong_kind T sender)
  ∧ (∀ why, fst (prepare_polymorphic_model T fuel sender s)
            = Raise (ImproperlyConfigured why) →
            snd (prepare_polymorphic_model T fuel sender s) = s).
Proof.
  intros Hpoly.
  unfold prepare_polymorphic_model, no_field_name, field_missing,
    field_of_wrong_kind, meta.
  rewrite Hpoly.
  destruct (cls_content_type_field_name (get_class T sender)) as [name|];
    [|split; [split; eauto|done]].
  destruct (get_field (cls_meta (get_class T sender)) name) as [f|] eqn:Hf;
    [|split; [split; eauto 7|done]].
  destruct (negb (is_ForeignKey f) || negb (rel_to_is f ContentType)) eqn:Hkind.
  - split; [|done]. split; [intros _|eauto].
    right; right. exists name, f. repeat split; try done.
    intros Heq%wrong_kind_spec. congruence.
  - apply wrong_kind_spec in Hkind as ->.
    pose proof (while_parents_not_configuration_error T sender
                  (if proxy (cls_meta (get_class T sender))
                   then Some sender else None)
                  fuel [sender] [] None
                  (set_subclass_accessors sender ∅ s)) as Hloop.
    destruct (while_parents _ _ _ _ _ _ _ _) as [[[r|]|e|] s1]; simpl in *.
    + split; [|by intros]. split; [by intros [? ?]|].
      intros [|[(? & ? & ?)|(? & ? & ? & ? & ?)]]; simplify_eq.
    + split; [|by intros]. split; [by intros [? ?]|].
      intros [|[(? & ? & ?)|(? & ? & ? & ? & ?)]]; simplify_eq.
    + split.
      * split; [intros [why [= ->]]; by destruct (Hloop why)|].
        intros [|[(? & ? & ?)|(? & ? & ? & ? & ?)]]; simplify_eq.
      * intros why [= ->]. by destruct (Hloop why).
    + split; [|by intros]. split; [by intros [? ?]|].
      intros [|[(? & ? & ?)|(? & ? & ? & ? & ?)]]; simplify_eq.
Qed.

Lemma configuration_errors_witness :
  ((∃ why, fst (prepare_polymorphic_model nameless1 8 Nameless ∅)
           = Raise (ImproperlyConfigured why))
   ↔ no_field_name nameless1 Nameless ∨ field_missing nameless1 Nameless
     ∨ field_of_wrong_kind nameless1 Nameless)
  ∧ (∀ why, fst (prepare_polymorphic_model nameless1 8 Nameless ∅)
            = Raise (ImproperlyConfigured why) →
            snd (prepare_polymorphic_model nameless1 8 Nameless ∅) = ∅).
Proof.
  apply (configuration_errors nameless1 8 Nameless ∅). reflexivity.
Defined.

(** ** What every reachable store satisfies *)

Lemma prepare_preserves (Q : class_id → Prop) (P : store → Prop)
    T fuel sender s :
  (∀ p b, Q p → b ∈ bases T p → Q b) →
  Q sender →
  (∀ s, P s → P (set_subclass_accessors sender ∅ s)) →
  (∀ parent attrs t s,
      Q parent → records T parent = true → P s →
      accessors s parent = Some t →
      P (set_subclass_accessors parent
           (<[sender := (attrs, proxy_marker T sender,
                         join LOOKUP_SEP (firstn 1 attrs))]> t) s)) →
  (∀ b s, P s → P (set_is_polymorphic_root sender b s)) →
  P s → P (snd (prepare_polymorphic_model T fuel sender s)).
Proof.
  intros Hbases Hsender Hreset Hwrite Hroot HP.
  unfold prepare_polymorphic_model.
  destruct (issubclass T sender BasePolymorphicModel); [|done].
  pass_checks.
  pose proof (while_parents_preserves T sender (proxy_marker T sender) Q P
                Hbases Hwrite fuel [sender] [] None
                (set_subclass_accessors sender ∅ s)) as Hloop.
  unfold proxy_marker, meta in Hloop.
  destruct (while_parents _ _ _ _ _ _ _ _) as [[[r|]|e|] s1]; simpl in *;
    try apply Hroot; apply Hloop; auto.
Qed.

Lemma join_first_hop (attrs : list string) :
  join LOOKUP_SEP (firstn 1 attrs) =
  match attrs with [] => "" | a :: _ => a end.
Proof. by destruct attrs. Qed.

(** C7: in every table of every reachable store, the lookup string of an
    entry is the first accessor name of its chain, or the empty string when
    the chain is empty; it never spans two hops. *)
Theorem lookup_is_first_hop T s c t k (attrs : list string) p lookup :
  reachable T s →
  accessors s c = Some t →
  t !! k = Some (attrs, p, lookup) →
  lookup = match attrs with [] => "" | a :: _ => a end.
Proof.
  intros Hreach. revert c t k attrs p lookup.
  induction Hreach as [|fuel sender s _ IH _]; intros c t k attrs p lookup.
  { by unfold accessors, meta_state; rewrite lookup_empty. }
  revert c t k attrs p lookup.
  apply (prepare_preserves (λ _, True)
           (λ s, ∀ c t k (attrs : list string) p lookup,
                accessors s c = Some t → t !! k = Some (attrs, p, lookup) →
                lookup = match attrs with [] => "" | a :: _ => a end));
    try done.
  - intros s' HP c t k attrs p lookup. rewrite accessors_set.
    case_decide; [|by apply HP]. intros [= <-]. by rewrite lookup_empty.
  - intros parent attrs0 t0 s' _ _ HP Ht0 c t k attrs p lookup.
    rewrite accessors_set. case_decide; [subst|by apply HP].
    intros [= <-]. rewrite lookup_insert. case_decide; [|by eapply HP].
    intros [= <- <- <-]. apply join_first_hop.
  - intros b s' HP c t k attrs p lookup. rewrite accessors_set_root.
    apply HP.
Qed.

Lemma lookup_is_first_hop_witness :
  reachable linear3 registered3
  ∧ accessors registered3 Root ≫= (λ t, t !! Leaf)
    = Some (["middle"; "leaf"], None, "middle")
  ∧ "middle" = match ["middle"; "leaf"] with [] => "" | a :: _ => a end.
Proof.
  split; [apply registered3_reachable|].
  split; [vm_compute; reflexivity|].
  eapply (lookup_is_first_hop linear3 registered3 Root _ Leaf
            ["middle"; "leaf"] None "middle").
  - apply registered3_reachable.
  - vm_compute. reflexivity.
  - vm_compute. reflexivity.
Defined.

(** The keys of a table are subclasses of the class that owns it. *)
Lemma accessor_keys_are_subclasses T s c t k :
  reachable T s →
  accessors s c = Some t →
  is_Some (t !! k) →
  subclass T k c.
Proof.
  intros Hreach. revert c t k.
  induction Hreach as [|fuel sender s _ IH _]; intros c t k.
  { by unfold accessors, meta_state; rewrite lookup_empty. }
  revert c t k.
  apply (prepare_preserves (subclass T sender)
           (λ s, ∀ c t k, accessors s c = Some t → is_Some (t !! k) →
                          subclass T k c)); try done.
  - intros p b Hp Hb. eapply subclass_trans; [done|].
    eapply subclass_base; [done|constructor].
  - constructor.
  - intros s' HP c t k. rewrite accessors_set.
    case_decide; [|by apply HP]. intros [= <-]. rewrite lookup_empty.
    by intros [? ?].
  - intros parent attrs0 t0 s' Hparent _ HP Ht0 c t k.
    rewrite accessors_set. case_decide; [subst|by apply HP].
    intros [= <-]. rewrite lookup_insert. case_decide; [by subst|].
    by eapply HP.
  - intros b s' HP c t k. rewrite accessors_set_root. apply HP.
Qed.

(** ** type_cast *)

Section Cast.

Variable T : hierarchy.
Variable related : Instance → string → exn + Instance.
Variable model_class : ContentTypeRow → option class_id.

(** With its table installed, a cast to a given class is the walk, the
    proxy copy and the check, in this order. *)
Lemma type_cast_unfold s self to t attrs proxy_ lookup :
  accessors s (inst_class self) = Some t →
  get_accessor t (Some to) = (attrs, proxy_, lookup) →
  type_cast T related model_class s self (Some to) =
  match walk related attrs self with
  | inl e => inl e
  | inr w =>
      if isinstance T (reinterpret proxy_ w) to
      then inr (reinterpret proxy_ w)
      else inl (TypeError self to)
  end.
Proof.
  unfold type_cast, accessors. cbn [resolve_to]. intros -> ->.
  destruct (walk related attrs self) as [e|w]; [done|].
  unfold reinterpret. by destruct proxy_, (isinstance _ _ _).
Qed.

Lemma type_cast_checked s self to r :
  type_cast T related model_class s self (Some to) = inr r →
  isinstance T r to = true.
Proof.
  unfold type_cast. cbn [resolve_to].
  destruct (_subclass_accessors _) as [t|]; [|done].
  destruct (get_accessor t (Some to)) as [[attrs proxy_] lookup].
  destruct (walk related attrs self) as [e|w]; [done|].
  destruct (isinstance T _ to) eqn:Hisinstance; simpl; [|done].
  by intros [= <-].
Qed.

Lemma get_accessor_miss (t : gmap class_id Accessor) to :
  t !! to = None → get_accessor t (Some to) = EMPTY_ACCESSOR.
Proof. intros Hmiss. unfold get_accessor. by rewrite Hmiss. Qed.

Lemma type_cast_miss s self to t :
  accessors s (inst_class self) = Some t →
  t !! to = None →
  type_cast T related model_class s self (Some to) =
  if isinstance T self to then inr self else inl (TypeError self to).
Proof.
  intros Ht Hmiss%get_accessor_miss.
  by rewrite (type_cast_unfold _ _ _ _ _ _ _ Ht Hmiss).
Qed.

(** C6: when the table of the instance's class has no entry for the
    target, the cast raises no lookup error: it takes the empty chain and
    no proxy marker, walks nothing, and the instance check alone decides
    between returning the instance and the type-cast error. *)
Theorem lookup_miss_is_identity_path s self to t :
  accessors s (inst_class self) = Some t →
  t !! to = None →
  get_accessor t (Some to) = EMPTY_ACCESSOR
  ∧ walk related (fst (fst EMPTY_ACCESSOR)) self = inr self
  ∧ type_cast T related model_class s self (Some to) =
    if isinstance T self to then inr self else inl (TypeError self to).
Proof.
  intros Ht Hmiss. split; [by apply get_accessor_miss|]. split; [done|].
  unfold type_cast, accessors in *. cbn [resolve_to]. rewrite Ht.
  rewrite get_accessor_miss by done. unfold EMPTY_ACCESSOR, reinterpret.
  cbn [walk]. by destruct (isinstance T self to).
Qed.

End Cast.

Lemma lookup_miss_is_identity_path_witness :
  type_cast linear3 no_rows no_model_class registered3
    (new_instance Middle (Some 2%Z)) (Some ContentType)
  = inl (TypeError (new_instance Middle (Some 2%Z)) ContentType).
Proof.
  eassert (accessors registered3 (inst_class (new_instance Middle (Some 2%Z)))
           = Some _) as Ht by (vm_compute; reflexivity).
  refine (proj2 (proj2 (lookup_miss_is_identity_path linear3 no_rows
                          no_model_class registered3
                          (new_instance Middle (Some 2%Z)) ContentType
                          _ Ht _))).
  vm_compute. reflexivity.
Defined.

(** ** The entry of a class for itself *)

Lemma own_entries_loop T sender fuel parents attrs root s :
  wf_hierarchy T →
  Forall (λ p, p < sender) parents →
  own_entries T s →
  own_entries T
    (snd (while_parents T fuel sender (proxy_marker T sender)
            parents attrs root s)).
Proof.
  intros wf Hparents Hown.
  apply (while_parents_preserves T sender (proxy_marker T sender)
           (λ p, p < sender) (own_entries T)); try done.
  - intros p b Hp Hb. pose proof (wf _ _ Hb). lia.
  - intros parent attrs0 t0 s' Hparent _ HP Ht0 c t Hc.
    rewrite accessors_set. case_decide; [subst c|by apply HP].
    intros [= <-]. rewrite lookup_insert_ne by lia. by apply HP.
Qed.

Lemma own_entries_reachable T s :
  wf_hierarchy T → reachable T s → own_entries T s.
Proof.
  intros wf. induction 1 as [|fuel sender s _ IH Hfuel].
  { intros c t _. by unfold accessors, meta_state; rewrite lookup_empty. }
  revert Hfuel. unfold prepare_polymorphic_model.
  destruct (issubclass T sender BasePolymorphicModel) eqn:Hpoly; [|done].
  pass_checks.
  change (if proxy (cls_meta (get_class T sender)) then Some sender else None)
    with (proxy_marker T sender).
  assert (Forall (λ p, p < sender) (bases T sender ++ [])) as Hbases.
  { rewrite app_nil_r. apply Forall_forall. intros b Hb. by apply wf. }
  assert (own_entries T
            (snd (while_parents T fuel sender (proxy_marker T sender)
                    [sender] [] None (set_subclass_accessors sender ∅ s))) ∨
          fuel = 0) as Hloop.
  { destruct fuel as [|fuel]; [by right|left]. cbn [while_parents].
    rewrite Hpoly. fold (accessors (set_subclass_accessors sender ∅ s) sender).
    rewrite accessors_set. rewrite decide_True by done.
    destruct (abstract (meta T sender)) eqn:Habs; cbn [negb].
    - apply own_entries_loop; [done..|].
      intros c t Hc. rewrite accessors_set. case_decide; [subst c|by apply IH].
      unfold records in Hc. by rewrite Habs, andb_false_r in Hc.
    - apply own_entries_loop; [done..|].
      intros c t Hc. rewrite !accessors_set. case_decide; [subst c|].
      + intros [= <-]. by rewrite lookup_insert_eq.
      + by apply IH. }
  destruct Hloop as [Hloop| ->].
  - destruct (while_parents _ _ _ _ _ _ _ _) as [[[r|]|e|] s1]; simpl in *;
      intros _; try done.
    intros c t Hc. rewrite accessors_set_root. by apply Hloop.
  - done.
Qed.

(** ** Casting to one's own class, and to an ancestor *)

Lemma isinstance_copy_fields T obj p :
  wf_hierarchy T → isinstance T (copy_fields obj p) p = true.
Proof. intros wf. by apply issubclass_refl. Qed.

(** C5: a cast to the instance's own class never raises and walks no
    relation, because the class's own entry has the empty chain; it
    returns the instance itself, or for a proxy class a copy of it in the
    proxy class, in both cases an equivalent object. *)
Theorem cast_to_own_class T related model_class s self t :
  wf_hierarchy T →
  reachable T s →
  records T (inst_class self) = true →
  accessors s (inst_class self) = Some t →
  t !! inst_class self = Some ([], proxy_marker T (inst_class self), "")
  ∧ type_cast T related model_class s self (Some (inst_class self)) =
    inr (if proxy (meta T (inst_class self))
         then copy_fields self (inst_class self) else self)
  ∧ equivalent
      (if proxy (meta T (inst_class self))
       then copy_fields self (inst_class self) else self) self.
Proof.
  intros wf Hreach Hrecords Ht.
  pose proof (own_entries_reachable T s wf Hreach _ _ Hrecords Ht) as Hown.
  split; [done|]. split.
  - assert (get_accessor t (Some (inst_class self)) =
            ([], proxy_marker T (inst_class self), "")) as Hget.
    { unfold get_accessor. by rewrite Hown. }
    rewrite (type_cast_unfold T related model_class _ _ _ _ _ _ _ Ht Hget).
    cbn [walk]. unfold proxy_marker, reinterpret.
    destruct (proxy (meta T (inst_class self))).
    + by rewrite isinstance_copy_fields.
    + unfold isinstance. by rewrite issubclass_refl.
  - by destruct (proxy (meta T (inst_class self))).
Qed.

Lemma cast_to_own_class_witness :
  registered3 !! Leaf ≠ None
  ∧ type_cast linear3 no_rows no_model_class registered3
      (new_instance Leaf (Some 7%Z)) (Some Leaf)
    = inr (new_instance Leaf (Some 7%Z)).
Proof.
  split; [vm_compute; discriminate|].
  eapply (cast_to_own_class linear3 no_rows no_model_class registered3
            (new_instance Leaf (Some 7%Z))).
  - apply linear3_wf.
  - apply registered3_reachable.
  - reflexivity.
  - vm_compute. reflexivity.
Defined.

(** C10: when the table of the instance's class has no entry for a class
    the instance already belongs to, the cast returns the instance itself;
    and a strict ancestor of the instance's class never has an entry there,
    so every cast towards an ancestor is the identity. *)
Theorem upcast_is_identity T related model_class s self to t :
  wf_hierarchy T →
  reachable T s →
  accessors s (inst_class self) = Some t →
  (t !! to = None → isinstance T self to = true →
   type_cast T related model_class s self (Some to) = inr self)
  ∧ (to ≠ inst_class self → issubclass T (inst_class self) to = true →
     t !! to = None
     ∧ type_cast T related model_class s self (Some to) = inr self).
Proof.
  intros wf Hreach Ht.
  assert (t !! to = None → isinstance T self to = true →
          type_cast T related model_class s self (Some to) = inr self)
    as Hmiss.
  { intros Hnone Hinst.
    rewrite (type_cast_miss T related model_class s self to t Ht Hnone).
    by rewrite Hinst. }
  split; [done|]. intros Hne Hsub.
  assert (t !! to = None) as Hnone.
  { destruct (t !! to) as [a|] eqn:Hto; [|done]. exfalso. apply Hne.
    eapply subclass_antisym; [done| |by apply issubclass_spec].
    eapply accessor_keys_are_subclasses; [done..|]. by rewrite Hto. }
  split; [done|]. by apply Hmiss.
Qed.

Lemma upcast_is_identity_witness :
  type_cast linear3 no_rows no_model_class registered3
    (new_instance Leaf (Some 7%Z)) (Some Root)
  = inr (new_instance Leaf (Some 7%Z)).
Proof.
  eapply (upcast_is_identity linear3 no_rows no_model_class registered3
            (new_instance Leaf (Some 7%Z)) Root).
  - apply linear3_wf.
  - apply registered3_reachable.
  - vm_compute. reflexivity.
  - vm_compute. discriminate.
  - reflexivity.
Defined.

(** ** The outcomes of a cast *)

(** C1, as amended: with the table of its class installed, a cast to a
    given class raises what a failing relation read raises during the
    walk; when the walk ends on an object, the cast returns that object
    (copied into the proxy class when the entry has a proxy marker) if it
    is an instance of the target, and raises the type-cast error naming
    the source instance and the target exactly when it is not.  No cast
    returns an object that is not an instance of the target. *)
Theorem type_cast_outcomes T related model_class s self to t
    attrs proxy_ lookup :
  accessors s (inst_class self) = Some t →
  get_accessor t (Some to) = (attrs, proxy_, lookup) →
  match walk related attrs self with
  | inl e => type_cast T related model_class s self (Some to) = inl e
  | inr w =>
      (isinstance T (reinterpret proxy_ w) to = true
       ∧ type_cast T related model_class s self (Some to)
         = inr (reinterpret proxy_ w))
      ∨ (isinstance T (reinterpret proxy_ w) to = false
         ∧ type_cast T related model_class s self (Some to)
           = inl (TypeError self to))
  end
  ∧ (∀ r, type_cast T related model_class s self (Some to) = inr r →
          isinstance T r to = true).
Proof.
  intros Ht Hget. split; [|apply type_cast_checked].
  rewrite (type_cast_unfold T related model_class _ _ _ _ _ _ _ Ht Hget).
  destruct (walk related attrs self) as [e|w]; [done|].
  destruct (isinstance T (reinterpret proxy_ w) to); [by left|by right].
Qed.

Lemma type_cast_outcomes_witness :
  type_cast linear3 child_rows no_model_class registered3
    (new_instance Root (Some 1%Z)) (Some Leaf)
  = inr (new_instance Leaf (Some 1%Z))
  ∧ type_cast linear3 no_rows no_model_class registered3
      (new_instance Middle (Some 1%Z)) (Some Leaf)
    = inl (DoesNotExist "leaf").
Proof.
  split.
  - eassert (accessors registered3 (inst_class (new_instance Root (Some 1%Z)))
             = Some _) as Ht by (vm_compute; reflexivity).
    eassert (get_accessor _ (Some Leaf) = (["middle"; "leaf"], None, "middle"))
      as Hget; [|
      destruct (type_cast_outcomes linear3 child_rows no_model_class
                  registered3 (new_instance Root (Some 1%Z)) Leaf _ _ _ _
                  Ht Hget) as [[[_ Hcast]|[Hno _]] _];
      [exact Hcast|vm_compute in Hno; discriminate Hno]].
    vm_compute. reflexivity.
  - eassert (accessors registered3
               (inst_class (new_instance Middle (Some 1%Z)))
             = Some _) as Ht by (vm_compute; reflexivity).
    eassert (get_accessor _ (Some Leaf) = (["leaf"], None, "leaf"))
      as Hget; [|
      exact (proj1 (type_cast_outcomes linear3 no_rows no_model_class
                      registered3 (new_instance Middle (Some 1%Z)) Leaf
                      _ _ _ _ Ht Hget))].
    vm_compute. reflexivity.
Defined.

(** C1, as stated, fails: a Root row without a Middle row, cast to
    Middle, raises what the relation read raises; it neither returns an
    instance of Middle nor raises the type-cast error. *)
Lemma type_cast_outcomes_counterexample :
  type_cast linear3 no_rows no_model_class registered3
    (new_instance Root (Some 1%Z)) (Some Middle)
  = inl (DoesNotExist "middle")
  ∧ ¬ ((∃ obj, type_cast linear3 no_rows no_model_class registered3
                 (new_instance Root (Some 1%Z)) (Some Middle) = inr obj
               ∧ isinstance linear3 obj Middle = true)
       ∨ type_cast linear3 no_rows no_model_class registered3
           (new_instance Root (Some 1%Z)) (Some Middle)
         = inl (TypeError (new_instance Root (Some 1%Z)) Middle)).
Proof.
  assert (type_cast linear3 no_rows no_model_class registered3
            (new_instance Root (Some 1%Z)) (Some Middle)
          = inl (DoesNotExist "middle")) as Hcast by (vm_compute; reflexivity).
  split; [done|]. rewrite Hcast. intros [(obj & [=] & _)|[=]].
Qed.

(** ** save *)

Section Save.

Variable T : hierarchy.
Variable get_content_type : class_id → option string → ContentTypeRow.
Variable R : Type.
Variable Model_save : Instance → R.

(** C4: [save] hands to the underlying save the instance with its
    discriminator field set to the content type of its exact class when the
    primary key is unset, and the instance untouched when the primary key
    is set, whatever discriminator it holds. *)
Theorem save_sets_discriminator_when_new self name :
  cls_content_type_field_name (get_class T (inst_class self)) = Some name →
  let content_type := get_content_type (inst_class self) (_state_db self) in
  let handed :=
    match pk self with
    | None => setattr self name (VContentType content_type)
    | Some _ => self
    end in
  save T get_content_type R Model_save self = inr (Model_save handed)
  ∧ (pk self = None →
     inst_attrs handed !! name = Some (VContentType content_type)
     ∧ (∀ other, other ≠ name →
                 inst_attrs handed !! other = inst_attrs self !! other)
     ∧ inst_class handed = inst_class self ∧ pk handed = None)
  ∧ (pk self ≠ None → handed = self).
Proof.
  intros Hname content_type handed. subst handed content_type.
  unfold save. rewrite Hname.
  destruct (pk self) as [k|] eqn:Hpk; (split; [done|]); split; try done.
  intros _. cbn [setattr inst_attrs inst_class pk].
  rewrite lookup_insert_eq. repeat split; [|done].
  intros other Hother. by rewrite lookup_insert_ne.
Qed.

End Save.

Lemma save_sets_discriminator_when_new_witness :
  save linear3 content_type_of Instance id (new_instance Leaf None)
  = inr (setattr (new_instance Leaf None) "content_type"
           (VContentType (content_type_of Leaf None)))
  ∧ save linear3 content_type_of Instance id stale_leaf = inr stale_leaf.
Proof.
  split.
  - apply (save_sets_discriminator_when_new linear3 content_type_of
             Instance id (new_instance Leaf None) "content_type").
    reflexivity.
  - apply (save_sets_discriminator_when_new linear3 content_type_of
             Instance id stale_leaf "content_type").
    reflexivity.
Defined.

(** ** A handler that returns has run the whole traversal *)

Section Traversal.

Variable T : hierarchy.
Hypothesis wf : wf_hierarchy T.

Lemma while_parents_return_fuel sender proxy_ fuel parents attrs root s r :
  fst (while_parents T fuel sender proxy_ parents attrs root s) = Return r →
  length (visit_order T parents) ≤ fuel.
Proof.
  revert parents attrs root s.
  induction fuel as [|fuel IH]; intros parents attrs root s;
    destruct parents as [|parent parents]; try done;
    try (intros _; cbn; lia).
  rewrite visit_order_cons by done. cbn [while_parents length].
  destruct (issubclass T parent BasePolymorphicModel).
  - destruct (abstract (meta T parent)); cbn [negb].
    + intros Hret%IH. lia.
    + destruct (_subclass_accessors (meta_state s parent)); [|done].
      intros Hret%IH. lia.
  - intros Hret%IH. lia.
Qed.

Lemma prepare_returns fuel sender s s' :
  issubclass T sender BasePolymorphicModel = true →
  prepare_polymorphic_model T fuel sender s = (Return tt, s') →
  ∃ r s1,
    run_visits T sender (proxy_marker T sender) (visit_order T [sender])
      [] None (set_subclass_accessors sender ∅ s) = (Return (Some r), s1)
    ∧ s' = set_is_polymorphic_root sender r s1.
Proof.
  intros Hpoly. unfold prepare_polymorphic_model. rewrite Hpoly.
  pass_checks.
  change (if proxy (cls_meta (get_class T sender)) then Some sender else None)
    with (proxy_marker T sender).
  destruct (while_parents T fuel sender (proxy_marker T sender) [sender] []
              None (set_subclass_accessors sender ∅ s))
    as [[[r|]|e|] s1] eqn:Hloop; try done.
  intros [= <-]. exists r, s1. split; [|done].
  rewrite <- Hloop. symmetry. apply while_parents_run; [done|].
  eapply while_parents_return_fuel. by rewrite Hloop.
Qed.

(** With enough fuel the handler does not run out of it. *)
Lemma prepare_terminates fuel sender s :
  traversal_cost T sender ≤ fuel →
  fst (prepare_polymorphic_model T fuel sender s) ≠ OutOfFuel.
Proof.
  intros Hfuel. unfold prepare_polymorphic_model.
  destruct (issubclass T sender BasePolymorphicModel); [|done].
  pass_checks.
  rewrite while_parents_run by done.
  generalize (set_subclass_accessors sender ∅ s), (@None bool), (@nil string).
  induction (visit_order T [sender]) as [|p order IH]; intros s0 root attrs;
    simpl; [by destruct root|].
  unfold loop_body. destruct (records T p); [|apply IH].
  destruct (_subclass_accessors (meta_state s0 p)); [apply IH|done].
Qed.

(** *** What the traversal visits *)

Lemma dfs_sound depth c v : v ∈ dfs T depth c → subclass T c v.
Proof.
  revert c. induction depth as [|depth IH]; intros c; simpl.
  - destruct (issubclass T c BasePolymorphicModel);
      intros ->%list_elem_of_singleton; constructor.
  - intros [->|Hv]%elem_of_cons; [constructor|].
    destruct (issubclass T c BasePolymorphicModel);
      [|by apply elem_of_nil in Hv].
    apply list_elem_of_In, in_flat_map in Hv as (b & Hb & Hv).
    apply subclass_base with b; [by apply list_elem_of_In|].
    by apply IH, list_elem_of_In.
Qed.

Lemma visit_order_elem v parents :
  v ∈ visit_order T parents ↔ ∃ p, p ∈ parents ∧ v ∈ dfs T (length T) p.
Proof.
  unfold visit_order. rewrite list_elem_of_In, in_flat_map.
  split; intros (p & Hp & Hv); exists p;
    by rewrite ?list_elem_of_In in *.
Qed.

Lemma visit_order_sound v parents :
  v ∈ visit_order T parents → ∃ p, p ∈ parents ∧ subclass T p v.
Proof.
  intros (p & Hp & Hv)%visit_order_elem. exists p. split; [done|].
  by eapply dfs_sound.
Qed.

Lemma dfs_complete c v :
  subclass T c v → issubclass T v BasePolymorphicModel = true →
  v ∈ dfs T (length T) c.
Proof.
  induction 1 as [c|c b v Hb Hsub IH]; intros Hpoly.
  - rewrite dfs_unfold by done. left.
  - rewrite dfs_unfold by done. right.
    assert (issubclass T c BasePolymorphicModel = true) as ->.
    { eapply issubclass_trans; [done| |done].
      apply issubclass_spec; [done|]. by eapply subclass_base. }
    apply visit_order_elem. exists b. split; [done|]. by apply IH.
Qed.

End Traversal.

(** ** The fold of the loop body *)

Section Visits.

Variable T : hierarchy.
Variable sender : class_id.
Variable proxy_ : option class_id.

Lemma loop_body_other parent attrs root s c :
  c ≠ parent →
  accessors (snd (loop_body T sender proxy_ parent attrs root s)) c
  = accessors s c.
Proof.
  intros Hc. unfold loop_body. destruct (records T parent); [|done].
  destruct (_subclass_accessors (meta_state s parent)); [|done].
  cbn [snd]. rewrite accessors_set. by rewrite decide_False.
Qed.

Lemma run_visits_other order attrs root s c :
  c ∉ order →
  accessors (snd (run_visits T sender proxy_ order attrs root s)) c
  = accessors s c.
Proof.
  revert attrs root s. induction order as [|p order IH];
    intros attrs root s Hc; [done|].
  apply not_elem_of_cons in Hc as [Hne Hc]. cbn [run_visits].
  pose proof (loop_body_other p attrs root s c Hne) as Hbody.
  destruct (loop_body T sender proxy_ p attrs root s) as [[[attrs' root']|e|] s1];
    simpl in *; [|done..].
  rewrite IH by done. done.
Qed.

Lemma chain_before_cons p pre attrs :
  chain_before T (p :: pre) ++ attrs =
  chain_before T pre
  ++ (if links T p then accessor_name T p :: attrs else attrs).
Proof.
  unfold chain_before. cbn [List.filter].
  destruct (links T p); [|done].
  cbn [map rev]. by rewrite <- app_assoc.
Qed.

(** The entry left for [sender] on a class is the one of the last visit
    of that class: the names gathered before it. *)
Lemma run_visits_entry pre ancestor post attrs root s r s' :
  run_visits T sender proxy_ (pre ++ ancestor :: post) attrs root s
  = (Return r, s') →
  ancestor ∉ post →
  records T ancestor = true →
  ∃ t, accessors s' ancestor = Some t
       ∧ t !! sender =
         Some (chain_before T pre ++ attrs, proxy_,
               join LOOKUP_SEP (firstn 1 (chain_before T pre ++ attrs))).
Proof.
  revert attrs root s. induction pre as [|p pre IH]; intros attrs root s.
  - cbn [app run_visits]. unfold loop_body. intros Hrun Hpost Hrec.
    rewrite Hrec in Hrun.
    destruct (_subclass_accessors (meta_state s ancestor)) as [t0|]; [|done].
    pose proof (run_visits_other post
                  (if negb (proxy (meta T ancestor))
                   then accessor_name T ancestor :: attrs else attrs)
                  (Some (ancestor =? sender))
                  (set_subclass_accessors ancestor
                     (<[sender := (attrs, proxy_,
                                   join LOOKUP_SEP (firstn 1 attrs))]> t0) s)
                  ancestor Hpost) as Hsame.
    rewrite Hrun in Hsame. cbn [snd] in Hsame.
    rewrite accessors_set, decide_True in Hsame by done.
    eexists. split; [done|]. by rewrite lookup_insert_eq.
  - rewrite <- app_comm_cons. cbn [run_visits]. intros Hrun Hpost Hrec.
    rewrite chain_before_cons. unfold loop_body, links in *.
    destruct (records T p); cbn [andb].
    + destruct (_subclass_accessors (meta_state s p)); [|done].
      by eapply IH.
    + by eapply IH.
Qed.

(** The flag the loop ends with is decided by the last class that
    records an entry. *)
Lemma run_visits_root order attrs root s r s' :
  run_visits T sender proxy_ order attrs root s = (Return r, s') →
  r = fold_left (λ acc p, if records T p then Some (p =? sender) else acc)
        order root.
Proof.
  revert attrs root s. induction order as [|p order IH]; intros attrs root s.
  - by intros [= <- _].
  - cbn [run_visits fold_left]. unfold loop_body.
    destruct (records T p); [|apply IH].
    destruct (_subclass_accessors (meta_state s p)); [apply IH|done].
Qed.

Lemma fold_root_strangers order root :
  Forall (λ p, p ≠ sender) order →
  fold_left (λ acc p, if records T p then Some (p =? sender) else acc)
    order root
  = if existsb (records T) order then Some false else root.
Proof.
  revert root. induction order as [|p order IH]; intros root Hne; [done|].
  apply Forall_cons in Hne as [Hp Hne]. cbn [fold_left existsb].
  rewrite IH by done. destruct (records T p); cbn [orb]; [|done].
  apply Nat.eqb_neq in Hp as ->. by destruct (existsb _ _).
Qed.

Lemma fold_root_bound order b :
  ∃ b', fold_left (λ acc p, if records T p then Some (p =? sender) else acc)
          order (Some b) = Some b'.
Proof.
  revert b. induction order as [|p order IH]; intros b; [by eexists|].
  cbn [fold_left]. destruct (records T p); apply IH.
Qed.

(** While every class that records an entry has its table, the fold
    raises nothing. *)
Lemma run_visits_returns order attrs root s :
  (∀ a, a ∈ order → records T a = true → is_Some (accessors s a)) →
  ∃ s', run_visits T sender proxy_ order attrs root s
        = (Return (fold_left (λ acc p, if records T p
                                       then Some (p =? sender) else acc)
                     order root), s').
Proof.
  revert attrs root s. induction order as [|p order IH];
    intros attrs root s Htables; [by eexists|].
  cbn [run_visits fold_left]. unfold loop_body.
  destruct (records T p) eqn:Hrec.
  - destruct (Htables p) as [t Ht]; [left|done|].
    unfold accessors in Ht. rewrite Ht. apply IH.
    intros a Ha Hreca. rewrite accessors_set. case_decide; [by eexists|].
    apply Htables; [by right|done].
  - apply IH. intros a Ha. apply Htables. by right.
Qed.

End Visits.

(** With enough fuel, the handler returns for a concrete polymorphic class
    that passes the three checks, once the concrete polymorphic ancestors
    of the class have their tables. *)
Lemma prepare_succeeds T fuel sender s name :
  wf_hierarchy T →
  traversal_cost T sender ≤ fuel →
  records T sender = true →
  cls_content_type_field_name (get_class T sender) = Some name →
  get_field (meta T sender) name = Some (ForeignKey (RelTo ContentType)) →
  (∀ a, a ≠ sender → issubclass T sender a = true → records T a = true →
        is_Some (accessors s a)) →
  fst (prepare_polymorphic_model T fuel sender s) = Return tt.
Proof.
  intros wf Hfuel Hrec Hname Hfield Htables.
  pose proof Hrec as [Hpoly _]%andb_true_iff.
  unfold prepare_polymorphic_model, meta in *.
  rewrite Hpoly, Hname, Hfield. cbn [is_ForeignKey rel_to_is negb orb].
  rewrite Nat.eqb_refl. cbn [negb].
  rewrite while_parents_run by done.
  destruct (run_visits_returns T sender
              (if proxy (cls_meta (get_class T sender))
               then Some sender else None)
              (visit_order T [sender]) [] None
              (set_subclass_accessors sender ∅ s)) as [s1 ->].
  { intros a Ha Hreca. rewrite accessors_set. case_decide; [by eexists|].
    apply Htables; [done| |done].
    apply visit_order_sound in Ha as (p & ->%list_elem_of_singleton & Hsub).
    by apply issubclass_spec. }
  rewrite visit_order_cons by done. cbn [fold_left]. rewrite Hrec.
  destruct (fold_root_bound T sender
              (visit_order T
                 (if issubclass T sender BasePolymorphicModel
                  then bases T sender ++ [] else []))
              (sender =? sender)) as [b ->].
  done.
Qed.

(** ** The chains the handler records *)

(** C2: once Root, Middle and Leaf are defined, Root's table maps Leaf to
    the chain ("middle", "leaf") and Middle's table maps Leaf to ("leaf").
    In general, when the handler returns, the entry for the new class on
    a concrete polymorphic ancestor holds the names gathered before the
    (last) visit of that ancestor: the lowercase names of the concrete,
    non-proxy polymorphic classes visited before it, the one visited last
    (nearest to the ancestor) first. *)
Theorem accessor_chains :
  (accessors registered3 Root ≫= (λ t, t !! Leaf)
   = Some (["middle"; "leaf"], None, "middle")
   ∧ accessors registered3 Middle ≫= (λ t, t !! Leaf)
     = Some (["leaf"], None, "leaf"))
  ∧ ∀ T fuel sender s s' pre ancestor post,
      wf_hierarchy T →
      issubclass T sender BasePolymorphicModel = true →
      prepare_polymorphic_model T fuel sender s = (Return tt, s') →
      visited T fuel [sender] = pre ++ ancestor :: post →
      ancestor ∉ post →
      records T ancestor = true →
      ∃ t, accessors s' ancestor = Some t
           ∧ t !! sender =
             Some (chain_before T pre, proxy_marker T sender,
                   match chain_before T pre with [] => "" | a :: _ => a end).
Proof.
  split; [split; vm_compute; reflexivity|].
  intros T fuel sender s s' pre ancestor post wf Hpoly Hprepare Hvisited
    Hlast Hrecords.
  assert (traversal_cost T sender ≤ fuel) as Hfuel.
  { revert Hprepare. unfold prepare_polymorphic_model. rewrite Hpoly.
    pass_checks.
    destruct (while_parents _ _ _ _ _ _ _ _) as [[[r|]|e|] s1] eqn:Hloop;
      try done.
    intros _. eapply while_parents_return_fuel; [done|]. by rewrite Hloop. }
  rewrite visited_complete in Hvisited by done.
  destruct (prepare_returns T wf fuel sender s s' Hpoly Hprepare)
    as (r & s1 & Hrun & ->).
  rewrite Hvisited in Hrun.
  destruct (run_visits_entry T sender (proxy_marker T sender) pre ancestor
              post [] None _ _ _ Hrun Hlast Hrecords) as (t & Ht & Hentry).
  exists t. rewrite accessors_set_root. split; [done|].
  rewrite Hentry, app_nil_r. by rewrite join_first_hop.
Qed.

Lemma accessor_chains_witness :
  ∃ t, accessors registered3 Root = Some t
       ∧ t !! Leaf =
         Some (chain_before linear3 [Leaf; Middle], proxy_marker linear3 Leaf,
               match chain_before linear3 [Leaf; Middle] with
               | [] => ""
               | a :: _ => a
               end).
Proof.
  apply (proj2 accessor_chains linear3 10 Leaf registered2 registered3
           [Leaf; Middle] Root
           [PolymorphicModel; BasePolymorphicModel; Model]).
  - apply linear3_wf.
  - reflexivity.
  - vm_compute. reflexivity.
  - vm_compute. reflexivity.
  - rewrite !not_elem_of_cons. repeat split; try discriminate.
    apply not_elem_of_nil.
  - reflexivity.
Defined.

(** ** The root flag *)

Section Root.

Variable T : hierarchy.
Hypothesis wf : wf_hierarchy T.

Lemma prepare_root_flag fuel sender s s' :
  issubclass T sender BasePolymorphicModel = true →
  prepare_polymorphic_model T fuel sender s = (Return tt, s') →
  (is_root s' sender = Some true ↔ no_concrete_ancestor T sender)
  ∧ is_Some (is_root s' sender).
Proof.
  intros Hpoly Hprepare.
  destruct (prepare_returns T wf fuel sender s s' Hpoly Hprepare)
    as (r & s1 & Hrun & ->).
  rewrite is_root_set_root, decide_True by done. split; [|by eexists].
  apply run_visits_root in Hrun.
  rewrite visit_order_cons, Hpoly, app_nil_r in Hrun by done.
  cbn [fold_left] in Hrun.
  assert (Forall (λ p, p ≠ sender) (visit_order T (bases T sender)))
    as Hstrangers.
  { apply Forall_forall. intros v (b & Hb & Hv)%visit_order_sound.
    by eapply subclass_strict. }
  rewrite fold_root_strangers in Hrun by done.
  destruct (existsb (records T) (visit_order T (bases T sender))) eqn:Hex.
  - injection Hrun as ->. split; [done|]. intros Hnone. exfalso.
    apply existsb_exists in Hex as (v & Hv & Hrec).
    apply list_elem_of_In in Hv.
    rewrite (Hnone v) in Hrec; [done| |].
    + by eapply (proj1 (Forall_forall _ _) Hstrangers).
    + apply visit_order_sound in Hv as (b & Hb & Hv).
      apply issubclass_spec; [done|]. by eapply subclass_base.
  - destruct (records T sender); [|done]. rewrite Nat.eqb_refl in Hrun.
    injection Hrun as ->. split; [intros _|done].
    intros a Ha Hsub. destruct (records T a) eqn:Hrec; [exfalso|done].
    apply issubclass_spec in Hsub; [|done].
    inversion Hsub as [|? b ? Hb Hsub']; subst; [done|].
    apply not_true_iff_false in Hex. apply Hex, existsb_exists.
    exists a. split; [|done]. apply list_elem_of_In, visit_order_elem.
    exists b. split; [done|]. apply dfs_complete; [done..|].
    unfold records in Hrec. by apply andb_true_iff in Hrec as [? _].
Qed.

Lemma prepare_root_other fuel sender s c :
  c ≠ sender ∨ issubclass T c BasePolymorphicModel = false →
  is_root (snd (prepare_polymorphic_model T fuel sender s)) c = is_root s c.
Proof.
  intros [Hc|Hc].
  - apply (prepare_preserves (λ _, True) (λ s', is_root s' c = is_root s c));
      try done.
    + intros s0 <-. apply is_root_set.
    + intros parent attrs t s0 _ _ <- _. apply is_root_set.
    + intros b s0 <-. rewrite is_root_set_root. by rewrite decide_False.
  - destruct (decide (c = sender)) as [->|Hne].
    + unfold prepare_polymorphic_model. by rewrite Hc.
    + apply (prepare_preserves (λ _, True)
               (λ s', is_root s' c = is_root s c)); try done.
      * intros s0 <-. apply is_root_set.
      * intros parent attrs t s0 _ _ <- _. apply is_root_set.
      * intros b s0 <-. rewrite is_root_set_root. by rewrite decide_False.
Qed.

Lemma prepare_all_root_other fuel senders s c :
  c ∉ senders ∨ issubclass T c BasePolymorphicModel = false →
  is_root (snd (prepare_all T fuel senders s)) c = is_root s c.
Proof.
  revert s. induction senders as [|sender senders IH]; intros s Hc; [done|].
  cbn [prepare_all].
  assert (c ≠ sender ∨ issubclass T c BasePolymorphicModel = false) as Hhead.
  { destruct Hc as [Hc|Hc]; [left|by right].
    by apply not_elem_of_cons in Hc as [? _]. }
  assert (c ∉ senders ∨ issubclass T c BasePolymorphicModel = false) as Htail.
  { destruct Hc as [Hc|Hc]; [left|by right].
    by apply not_elem_of_cons in Hc as [_ ?]. }
  pose proof (prepare_root_other fuel sender s c Hhead) as Hstep.
  destruct (prepare_polymorphic_model T fuel sender s) as [[[]|e|] s1];
    simpl in *; [|done..].
  by rewrite IH.
Qed.

Lemma prepare_all_root fuel senders s s' c :
  NoDup senders →
  prepare_all T fuel senders s = (Return tt, s') →
  c ∈ senders →
  issubclass T c BasePolymorphicModel = true →
  (is_root s' c = Some true ↔ no_concrete_ancestor T c)
  ∧ is_Some (is_root s' c).
Proof.
  revert s. induction senders as [|sender senders IH]; intros s Hnodup Hall Hc.
  { by apply elem_of_nil in Hc. }
  apply NoDup_cons in Hnodup as [Hfresh Hnodup]. cbn [prepare_all] in Hall.
  destruct (prepare_polymorphic_model T fuel sender s) as [[[]|e|] s1]
    eqn:Hprepare; [|done..].
  destruct (decide (c = sender)) as [->|Hne]; intros Hpoly.
  - pose proof (prepare_all_root_other fuel senders s1 sender (or_introl Hfresh))
      as Hkept.
    rewrite Hall in Hkept. cbn [snd] in Hkept. rewrite Hkept.
    by eapply prepare_root_flag.
  - apply elem_of_cons in Hc as [?|Hc]; [done|]. by eapply IH.
Qed.

(** Above a class that records entries there is a topmost one. *)
Lemma topmost_exists c :
  records T c = true →
  ∃ r, subclass T c r ∧ records T r = true ∧ no_concrete_ancestor T r.
Proof.
  induction c as [c IH] using lt_wf_ind. intros Hrec.
  destruct (existsb (λ a, issubclass T c a && records T a) (seq 0 c)) eqn:Hex.
  - apply existsb_exists in Hex as (a & Ha & [Hsub Hreca]%andb_true_iff).
    apply in_seq in Ha.
    destruct (IH a) as (r & Hr & Hrecr & Htop); [lia|done|].
    exists r. split; [|done].
    eapply subclass_trans; [|done]. by apply issubclass_spec.
  - exists c. split; [constructor|]. split; [done|].
    intros a Ha Hsub. destruct (records T a) eqn:Hreca; [exfalso|done].
    apply not_true_iff_false in Hex. apply Hex, existsb_exists.
    exists a. split; [|by rewrite Hsub, Hreca].
    apply issubclass_spec, subclass_le in Hsub; [|done..].
    apply in_seq. lia.
Qed.

Hypothesis single : single_inheritance T.

Lemma single_base c b b' : b ∈ bases T c → b' ∈ bases T c → b = b'.
Proof.
  pose proof (single c) as Hlen.
  destruct (bases T c) as [|x [|y l]]; simpl in Hlen; [|
    by intros ->%list_elem_of_singleton ->%list_elem_of_singleton|lia].
  by intros ?%elem_of_nil.
Qed.

(** The ancestors of a class form a chain. *)
Lemma ancestors_comparable c r1 r2 :
  subclass T c r1 → subclass T c r2 → subclass T r1 r2 ∨ subclass T r2 r1.
Proof.
  induction 1 as [c|c b r1 Hb Hsub IH]; intros Hr2; [by left|].
  inversion Hr2 as [|? b' ? Hb' Hsub']; subst.
  - right. by eapply subclass_base.
  - rewrite <- (single_base c b b' Hb Hb') in Hsub'. by apply IH.
Qed.

End Root.

Lemma class_prepared_spec T c :
  c ∈ class_prepared T ↔ c < length T ∧ abstract (meta T c) = false.
Proof.
  unfold class_prepared.
  rewrite list_elem_of_In, filter_In, in_seq, negb_true_iff.
  split; intros [? ?]; (split; [lia|done]).
Qed.

Lemma class_prepared_NoDup T : NoDup (class_prepared T).
Proof.
  apply NoDup_ListNoDup, List.NoDup_filter, seq_NoDup.
Qed.

(** The classes marked as root once the whole table is defined. *)
Lemma hierarchy_roots T fuel s r :
  wf_hierarchy T →
  prepare_hierarchy T fuel = (Return tt, s) →
  is_root s r = Some true ↔
  r < length T ∧ records T r = true ∧ no_concrete_ancestor T r.
Proof.
  intros wf Hall. unfold prepare_hierarchy in Hall. split.
  - intros Hroot.
    destruct (issubclass T r BasePolymorphicModel) eqn:Hpoly;
      [destruct (decide (r ∈ class_prepared T)) as [Hin|Hout]|].
    + pose proof (proj1 (class_prepared_spec T r) Hin) as [Hlt Habs].
      split; [done|]. split; [unfold records; by rewrite Hpoly, Habs|].
      by eapply (prepare_all_root T wf fuel (class_prepared T) ∅ s r
                   (class_prepared_NoDup T) Hall Hin Hpoly).
    + pose proof (prepare_all_root_other T fuel (class_prepared T) ∅ r
                    (or_introl Hout)) as Hkept.
      rewrite Hall in Hkept. cbn [snd] in Hkept.
      rewrite Hkept in Hroot. by unfold is_root, meta_state in Hroot;
        rewrite lookup_empty in Hroot.
    + pose proof (prepare_all_root_other T fuel (class_prepared T) ∅ r
                    (or_intror Hpoly)) as Hkept.
      rewrite Hall in Hkept. cbn [snd] in Hkept.
      rewrite Hkept in Hroot. by unfold is_root, meta_state in Hroot;
        rewrite lookup_empty in Hroot.
  - intros (Hlt & [Hpoly Habs%negb_true_iff]%andb_true_iff & Htop).
    assert (r ∈ class_prepared T) as Hin by by apply class_prepared_spec.
    by apply (prepare_all_root T wf fuel (class_prepared T) ∅ s r
                (class_prepared_NoDup T) Hall Hin Hpoly).
Qed.

(** C9: when the handler returns, the new class is marked as root exactly
    when it has no concrete polymorphic ancestor but itself.  Consequently,
    once every class of a single-inheritance table is defined, each
    concrete polymorphic class has exactly one class marked as root among
    itself and its ancestors, and no concrete polymorphic class below a
    root is marked as root. *)
Theorem polymorphic_root :
  (∀ T fuel sender s s',
      wf_hierarchy T →
      issubclass T sender BasePolymorphicModel = true →
      prepare_polymorphic_model T fuel sender s = (Return tt, s') →
      (is_root s' sender = Some true ↔ no_concrete_ancestor T sender)
      ∧ is_Some (is_root s' sender))
  ∧ (∀ T fuel s c,
      wf_hierarchy T →
      single_inheritance T →
      prepare_hierarchy T fuel = (Return tt, s) →
      c < length T →
      records T c = true →
      (∃ r, issubclass T c r = true ∧ is_root s r = Some true
            ∧ ∀ r', issubclass T c r' = true → is_root s r' = Some true →
                    r' = r)
      ∧ (∀ r, r ≠ c → issubclass T c r = true → is_root s r = Some true →
              is_root s c = Some false)).
Proof.
  split; [intros; by eapply prepare_root_flag|].
  intros T fuel s c wf Hsingle Hall Hlt Hrec. split.
  - destruct (topmost_exists T wf c Hrec) as (r & Hsub & Hrecr & Htop).
    pose proof (subclass_le T wf _ _ Hsub) as Hle.
    exists r. split; [by apply issubclass_spec|]. split.
    { apply (hierarchy_roots T fuel s r wf Hall). repeat split; [lia|done..]. }
    intros r' Hsub' Hroot'.
    apply (hierarchy_roots T fuel s r' wf Hall) in Hroot'
      as (_ & Hrecr' & Htop').
    apply issubclass_spec in Hsub'; [|done].
    destruct (decide (r' = r)) as [|Hne]; [done|]. exfalso.
    destruct (ancestors_comparable T Hsingle c r r' Hsub Hsub') as [Hup|Hup];
      apply issubclass_spec in Hup; try done.
    + rewrite (Htop r') in Hrecr'; done.
    + rewrite (Htop' r) in Hrecr; [done|congruence|done].
  - intros r Hne Hsub Hroot.
    apply (hierarchy_roots T fuel s r wf Hall) in Hroot as (_ & Hrecr & _).
    assert (c ∈ class_prepared T) as Hin.
    { apply class_prepared_spec. split; [done|]. unfold records in Hrec.
      by apply andb_true_iff in Hrec as [_ ?%negb_true_iff]. }
    assert (issubclass T c BasePolymorphicModel = true) as Hpoly.
    { unfold records in Hrec. by apply andb_true_iff in Hrec as [? _]. }
    destruct (prepare_all_root T wf fuel (class_prepared T) ∅ s c
                (class_prepared_NoDup T) Hall Hin Hpoly) as [Hiff [b Hb]].
    rewrite Hb. destruct b; [exfalso|done].
    apply Hiff in Hb. by rewrite (Hb r) in Hrecr.
Qed.

Lemma single_inheritanceb_spec T :
  single_inheritanceb T = true → single_inheritance T.
Proof.
  unfold single_inheritanceb. rewrite forallb_forall. intros Hall c.
  destruct (decide (c < length T)) as [Hc|Hc].
  - apply Nat.leb_le, Hall, in_seq. lia.
  - unfold bases, get_class. rewrite nth_overflow by lia. simpl. lia.
Qed.

Lemma linear3_single : single_inheritance linear3.
Proof. apply single_inheritanceb_spec. reflexivity. Qed.

Lemma polymorphic_root_witness :
  ((is_root registered3 Leaf = Some true ↔ no_concrete_ancestor linear3 Leaf)
   ∧ is_Some (is_root registered3 Leaf))
  ∧ (∃ r, issubclass linear3 Leaf r = true
          ∧ is_root (snd (prepare_hierarchy linear3 10)) r = Some true
          ∧ ∀ r', issubclass linear3 Leaf r' = true →
                  is_root (snd (prepare_hierarchy linear3 10)) r' = Some true →
                  r' = r).
Proof.
  split.
  - apply (proj1 polymorphic_root linear3 10 Leaf registered2 registered3).
    + apply linear3_wf.
    + reflexivity.
    + vm_compute. reflexivity.
  - apply (proj2 polymorphic_root linear3 10
             (snd (prepare_hierarchy linear3 10)) Leaf).
    + apply linear3_wf.
    + apply linear3_single.
    + vm_compute. reflexivity.
    + vm_compute. lia.
    + reflexivity.
Defined.

(** ** The order of the traversal *)




Section SingleInheritance.

Variable T : hierarchy.
Hypothesis wf : wf_hierarchy T.
Hypothesis single : single_inheritance T.


End SingleInheritance.




(** ** The example tables, computed *)

Example linear3_tables :
  accessors registered3 Root ≫= (λ t, t !! Middle)
  = Some (["middle"], None, "middle")
  ∧ accessors registered3 Root ≫= (λ t, t !! Root) = Some ([], None, "")
  ∧ accessors registered3 Leaf ≫= (λ t, t !! Root) = None
  ∧ is_root registered3 Root = Some true
  ∧ is_root registered3 Middle = Some false
  ∧ is_root registered3 Leaf = Some false.
Proof. repeat split; vm_compute; reflexivity. Qed.

Example linear3_cast_down :
  type_cast linear3 child_rows no_model_class registered3
    (new_instance Root (Some 4%Z)) (Some Leaf)
  = inr (new_instance Leaf (Some 4%Z)).
Proof. vm_compute. reflexivity. Qed.

Example proxied_tables :
  accessors registered_proxied Animal ≫= (λ t, t !! Pet)
  = Some ([], Some Pet, "")
  ∧ accessors registered_proxied Pet ≫= (λ t, t !! Pet)
    = Some ([], Some Pet, "")
  ∧ is_root registered_proxied Animal = Some true
  ∧ is_root registered_proxied Pet = Some false.
Proof. repeat split; vm_compute; reflexivity. Qed.

Example proxied_cast :
  type_cast proxied no_rows no_model_class registered_proxied
    (new_instance Animal (Some 9%Z)) (Some Pet)
  = inr (new_instance Pet (Some 9%Z))
  ∧ type_cast proxied no_rows no_model_class registered_proxied
      (new_instance Pet (Some 9%Z)) (Some Pet)
    = inr (new_instance Pet (Some 9%Z))
  ∧ type_cast proxied no_rows no_model_class registered_proxied
      (new_instance Pet (Some 9%Z)) (Some Animal)
    = inr (new_instance Pet (Some 9%Z)).
Proof. repeat split; vm_compute; reflexivity. Qed.

Example abstract_sender_unbound :
  fst (prepare_polymorphic_model linear3 10 PolymorphicModel ∅)
  = Raise (UnboundLocalError "is_polymorphic_root").
Proof. reflexivity. Qed.

Example unprepared_parent :
  fst (prepare_polymorphic_model linear3 10 Middle ∅)
  = Raise (AttributeError "_subclass_accessors").
Proof. reflexivity. Qed.

(** * Further properties of the handler and of the casts *)

(** ** Termination of the loop *)

(** X1: on a class table in which bases come before the classes that name
    them, the loop of the handler ends: [traversal_cost] iterations are
    enough, and with that many or more the handler ends the same way and
    leaves the same store. *)
Theorem handler_fuel_independent T fuel fuel' sender s :
  wf_hierarchy T →
  traversal_cost T sender ≤ fuel →
  traversal_cost T sender ≤ fuel' →
  fst (prepare_polymorphic_model T fuel sender s) ≠ OutOfFuel
  ∧ prepare_polymorphic_model T fuel sender s
    = prepare_polymorphic_model T fuel' sender s.
Proof.
  intros wf Hfuel Hfuel'. split; [by apply prepare_terminates|].
  unfold prepare_polymorphic_model.
  destruct (issubclass T sender BasePolymorphicModel); [|done].
  pass_checks. by rewrite !while_parents_run.
Qed.

Lemma handler_fuel_independent_witness :
  traversal_cost two_bases Note = 7
  ∧ fst (prepare_polymorphic_model two_bases 7 Note ∅) ≠ OutOfFuel
  ∧ prepare_polymorphic_model two_bases 7 Note ∅
    = prepare_polymorphic_model two_bases 40 Note ∅.
Proof.
  split; [reflexivity|].
  apply (handler_fuel_independent two_bases 7 40 Note ∅).
  - apply wf_hierarchyb_spec. reflexivity.
  - vm_compute. lia.
  - vm_compute. lia.
Defined.

(** ** The traversal, whatever the shape of the hierarchy *)



(** ** How the handler ends *)

Section Outcome.

Variable T : hierarchy.
Variable sender : class_id.
Variable proxy_ : option class_id.

Lemma lacks_table_set p t s a :
  accessors s p = Some t →
  ∀ t', lacks_table (set_subclass_accessors p t' s) a = lacks_table s a.
Proof.
  intros Hp t'. unfold lacks_table. rewrite accessors_set.
  case_decide; [subst; by rewrite Hp|done].
Qed.

Lemma fold_root_cases order root :
  fold_left (λ acc p, if records T p then Some (p =? sender) else acc)
    order root
  = if existsb (records T) order
    then fold_left (λ acc p, if records T p then Some (p =? sender) else acc)
           order root
    else root.
Proof.
  destruct (existsb (records T) order) eqn:Hex; [done|].
  revert root. induction order as [|p order IH]; intros root; [done|].
  cbn [existsb fold_left] in *. apply orb_false_iff in Hex as [-> Hex].
  by apply IH.
Qed.

Lemma fold_root_recorded order root :
  existsb (records T) order = true →
  ∃ b, fold_left (λ acc p, if records T p then Some (p =? sender) else acc)
         order root = Some b.
Proof.
  revert root. induction order as [|p order IH]; intros root; [done|].
  cbn [existsb fold_left]. destruct (records T p) eqn:Hrec; cbn [orb].
  - intros _. apply fold_root_bound.
  - apply IH.
Qed.

(** The fold raises at the first class that records an entry and has no
    table; without such a class it returns. *)
Lemma run_visits_outcome order attrs root s :
  fst (run_visits T sender proxy_ order attrs root s)
  = if existsb (λ a, records T a && lacks_table s a) order
    then Raise (AttributeError "_subclass_accessors")
    else Return (fold_left (λ acc p, if records T p
                                     then Some (p =? sender) else acc)
                   order root).
Proof.
  revert attrs root s. induction order as [|p order IH]; intros attrs root s;
    [done|].
  cbn [run_visits existsb fold_left]. unfold loop_body.
  destruct (records T p) eqn:Hrec; cbn [andb orb]; [|apply IH].
  unfold lacks_table at 1. fold (accessors s p).
  destruct (accessors s p) as [t|] eqn:Ht; cbn [orb]; [|done].
  rewrite IH. f_equal.
  assert (∀ l, existsb (λ a, records T a
                 && lacks_table
                      (set_subclass_accessors p
                         (<[sender := (attrs, proxy_,
                                       join LOOKUP_SEP (firstn 1 attrs))]> t)
                         s) a) l
               = existsb (λ a, records T a && lacks_table s a) l) as Hext.
  { intros l. induction l as [|a l IHl]; [done|]. cbn [existsb].
    by rewrite IHl, (lacks_table_set p t s a Ht). }
  by rewrite Hext.
Qed.

End Outcome.

(** How the handler ends for a polymorphic class that passes the three
    checks, once it has fuel enough. *)
Lemma handler_outcome T fuel sender s :
  wf_hierarchy T →
  traversal_cost T sender ≤ fuel →
  issubclass T sender BasePolymorphicModel = true →
  discriminator_declared T sender →
  fst (prepare_polymorphic_model T fuel sender s)
  = if existsb (λ a, records T a
                     && lacks_table (set_subclass_accessors sender ∅ s) a)
         (visit_order T [sender])
    then Raise (AttributeError "_subclass_accessors")
    else if existsb (records T) (visit_order T [sender])
         then Return tt
         else Raise (UnboundLocalError "is_polymorphic_root").
Proof.
  intros wf Hfuel Hpoly (name & Hname & Hfield).
  unfold prepare_polymorphic_model, meta in *.
  rewrite Hpoly, Hname, Hfield. cbn [is_ForeignKey rel_to_is negb orb].
  rewrite Nat.eqb_refl. cbn [negb].
  rewrite while_parents_run by done.
  pose proof (run_visits_outcome T sender
                (if proxy (cls_meta (get_class T sender))
                 then Some sender else None)
                (visit_order T [sender]) [] None
                (set_subclass_accessors sender ∅ s)) as Hout.
  destruct (run_visits _ _ _ _ _ _ _) as [out s1]. cbn [fst] in Hout.
  subst out.
  destruct (existsb (λ a, records T a && lacks_table _ a) _); [done|].
  rewrite fold_root_cases.
  destruct (existsb (records T) (visit_order T [sender])) eqn:Hex; [|done].
  by destruct (fold_root_recorded T sender _ None Hex) as [b ->].
Qed.

Lemma visits_recording T sender :
  wf_hierarchy T →
  existsb (records T) (visit_order T [sender]) = true ↔
  ∃ a, issubclass T sender a = true ∧ records T a = true.
Proof.
  intros wf. rewrite existsb_exists. split.
  - intros (a & Ha & Hrec). exists a. split; [|done].
    apply list_elem_of_In, visit_order_sound in Ha
      as (p & ->%list_elem_of_singleton & Hsub).
    by apply issubclass_spec.
  - intros (a & Hsub & Hrec). exists a. split; [|done].
    apply list_elem_of_In, visit_order_elem. exists sender. split; [left|].
    apply dfs_complete; [done|by apply issubclass_spec|].
    unfold records in Hrec. by apply andb_true_iff in Hrec as [? _].
Qed.

Lemma visits_lacking T sender s :
  wf_hierarchy T →
  existsb (λ a, records T a
                && lacks_table (set_subclass_accessors sender ∅ s) a)
    (visit_order T [sender]) = true ↔
  ∃ a, a ≠ sender ∧ issubclass T sender a = true ∧ records T a = true
       ∧ accessors s a = None.
Proof.
  intros wf. rewrite existsb_exists. unfold lacks_table. split.
  - intros (a & Ha & [Hrec Hlack]%andb_true_iff).
    rewrite accessors_set in Hlack.
    case_decide as Hsender; [done|]. exists a. split; [done|].
    split; [|split; [done|by destruct (accessors s a)]].
    apply list_elem_of_In, visit_order_sound in Ha
      as (p & ->%list_elem_of_singleton & Hsub).
    by apply issubclass_spec.
  - intros (a & Hne & Hsub & Hrec & Hnone). exists a. split.
    + apply list_elem_of_In, visit_order_elem. exists sender. split; [left|].
      apply dfs_complete; [done|by apply issubclass_spec|].
      unfold records in Hrec. by apply andb_true_iff in Hrec as [? _].
    + rewrite Hrec, accessors_set, decide_False, Hnone by done. done.
Qed.

(** X3: for a polymorphic class that passes the three checks, the handler
    returns exactly when the class or one of its ancestors is a concrete
    polymorphic class and every concrete polymorphic ancestor already has
    its table. *)
Theorem handler_returns_iff T fuel sender s :
  wf_hierarchy T →
  traversal_cost T sender ≤ fuel →
  issubclass T sender BasePolymorphicModel = true →
  discriminator_declared T sender →
  fst (prepare_polymorphic_model T fuel sender s) = Return tt ↔
  (∃ a, issubclass T sender a = true ∧ records T a = true)
  ∧ (∀ a, a ≠ sender → issubclass T sender a = true → records T a = true →
          is_Some (accessors s a)).
Proof.
  intros wf Hfuel Hpoly Hdecl.
  rewrite (handler_outcome T fuel sender s wf Hfuel Hpoly Hdecl).
  pose proof (visits_lacking T sender s wf) as Hlack.
  pose proof (visits_recording T sender wf) as Hrec.
  destruct (existsb (λ a, records T a && lacks_table _ a) _).
  - split; [done|]. intros [_ Htables].
    destruct (proj1 Hlack eq_refl) as (a & Hne & Hsub & Hreca & Hnone).
    destruct (Htables a Hne Hsub Hreca) as [t Ht]. congruence.
  - destruct (existsb (records T) (visit_order T [sender])).
    + split; [intros _|done]. split; [by apply Hrec|].
      intros a Hne Hsub Hreca.
      destruct (accessors s a) as [t|] eqn:Ht; [by eexists|].
      assert (false = true) as [=]. apply Hlack. by exists a.
    + split; [done|]. intros [Hex _]. by apply Hrec in Hex.
Qed.

Lemma handler_returns_iff_witness :
  fst (prepare_polymorphic_model linear3 10 Leaf registered2) = Return tt
  ∧ (fst (prepare_polymorphic_model linear3 10 Leaf registered2) = Return tt ↔
     (∃ a, issubclass linear3 Leaf a = true ∧ records linear3 a = true)
     ∧ (∀ a, a ≠ Leaf → issubclass linear3 Leaf a = true →
             records linear3 a = true → is_Some (accessors registered2 a))).
Proof.
  split; [vm_compute; reflexivity|].
  apply (handler_returns_iff linear3 10 Leaf registered2).
  - apply linear3_wf.
  - vm_compute. lia.
  - reflexivity.
  - exists "content_type". split; reflexivity.
Defined.

(** X4: for a polymorphic class that passes the three checks, the handler
    raises [AttributeError] exactly when a concrete polymorphic ancestor
    of the class has no table yet: the handler has not run for that
    ancestor. *)
Theorem handler_attribute_error_iff T fuel sender s :
  wf_hierarchy T →
  traversal_cost T sender ≤ fuel →
  issubclass T sender BasePolymorphicModel = true →
  discriminator_declared T sender →
  fst (prepare_polymorphic_model T fuel sender s)
  = Raise (AttributeError "_subclass_accessors") ↔
  ∃ a, a ≠ sender ∧ issubclass T sender a = true ∧ records T a = true
       ∧ accessors s a = None.
Proof.
  intros wf Hfuel Hpoly Hdecl.
  rewrite (handler_outcome T fuel sender s wf Hfuel Hpoly Hdecl).
  rewrite <- (visits_lacking T sender s wf).
  destruct (existsb (λ a, records T a && lacks_table _ a) _); [done|].
  by destruct (existsb (records T) (visit_order T [sender])).
Qed.

Lemma handler_attribute_error_iff_witness :
  fst (prepare_polymorphic_model linear3 10 Leaf ∅)
  = Raise (AttributeError "_subclass_accessors")
  ∧ (fst (prepare_polymorphic_model linear3 10 Leaf ∅)
     = Raise (AttributeError "_subclass_accessors") ↔
     ∃ a, a ≠ Leaf ∧ issubclass linear3 Leaf a = true
          ∧ records linear3 a = true ∧ accessors ∅ a = None).
Proof.
  split; [vm_compute; reflexivity|].
  apply (handler_attribute_error_iff linear3 10 Leaf ∅).
  - apply linear3_wf.
  - vm_compute. lia.
  - reflexivity.
  - exists "content_type". split; reflexivity.
Defined.

(** X5: for a polymorphic class that passes the three checks, the handler
    raises [UnboundLocalError] exactly when neither the class nor any of
    its ancestors is a concrete polymorphic class: the loop never assigns
    [is_polymorphic_root]. *)
Theorem handler_unbound_local_iff T fuel sender s :
  wf_hierarchy T →
  traversal_cost T sender ≤ fuel →
  issubclass T sender BasePolymorphicModel = true →
  discriminator_declared T sender →
  fst (prepare_polymorphic_model T fuel sender s)
  = Raise (UnboundLocalError "is_polymorphic_root") ↔
  ∀ a, issubclass T sender a = true → records T a = false.
Proof.
  intros wf Hfuel Hpoly Hdecl.
  rewrite (handler_outcome T fuel sender s wf Hfuel Hpoly Hdecl).
  pose proof (visits_lacking T sender s wf) as Hlack.
  pose proof (visits_recording T sender wf) as Hrec.
  destruct (existsb (λ a, records T a && lacks_table _ a) _).
  - split; [done|]. intros Hnone.
    destruct (proj1 Hlack eq_refl) as (a & _ & Hsub & Hreca & _).
    by rewrite (Hnone a Hsub) in Hreca.
  - destruct (existsb (records T) (visit_order T [sender])).
    + split; [done|]. intros Hnone.
      destruct (proj1 Hrec eq_refl) as (a & Hsub & Hreca).
      by rewrite (Hnone a Hsub) in Hreca.
    + split; [intros _|done]. intros a Hsub.
      destruct (records T a) eqn:Hreca; [|done].
      assert (false = true) as [=]. apply Hrec. by exists a.
Qed.

Lemma handler_unbound_local_iff_witness :
  fst (prepare_polymorphic_model linear3 10 PolymorphicModel registered3)
  = Raise (UnboundLocalError "is_polymorphic_root")
  ∧ (fst (prepare_polymorphic_model linear3 10 PolymorphicModel registered3)
     = Raise (UnboundLocalError "is_polymorphic_root") ↔
     ∀ a, issubclass linear3 PolymorphicModel a = true →
          records linear3 a = false).
Proof.
  split; [vm_compute; reflexivity|].
  apply (handler_unbound_local_iff linear3 10 PolymorphicModel registered3).
  - apply linear3_wf.
  - vm_compute. lia.
  - reflexivity.
  - exists "content_type". split; reflexivity.
Defined.

(** ** What the handler leaves alone *)

Lemma prepare_table_unrelated T fuel sender s c :
  ¬ subclass T sender c →
  accessors (snd (prepare_polymorphic_model T fuel sender s)) c
  = accessors s c.
Proof.
  intros Hnot.
  apply (prepare_preserves (subclass T sender)
           (λ s', accessors s' c = accessors s c)); try done.
  - intros p b Hp Hb. eapply subclass_trans; [done|].
    eapply subclass_base; [done|constructor].
  - constructor.
  - intros s0 <-. rewrite accessors_set. case_decide; [subst|done].
    destruct Hnot. constructor.
  - intros parent attrs t s0 Hparent _ <- _. rewrite accessors_set.
    case_decide; [by subst|done].
  - intros b s0 <-. apply accessors_set_root.
Qed.

Lemma prepare_table_other T fuel sender s c :
  c ≠ sender →
  accessors (snd (prepare_polymorphic_model T fuel sender s)) c
  = accessors s c
  ∨ ∃ t e, accessors s c = Some t
           ∧ accessors (snd (prepare_polymorphic_model T fuel sender s)) c
             = Some (<[sender := e]> t).
Proof.
  intros Hc.
  apply (prepare_preserves (λ _, True)
           (λ s', accessors s' c = accessors s c
                  ∨ ∃ t e, accessors s c = Some t
                           ∧ accessors s' c = Some (<[sender := e]> t)));
    try done; [| | |by left].
  - intros s0 HP. rewrite accessors_set. by rewrite decide_False.
  - intros parent attrs t s0 _ _ HP Ht. rewrite accessors_set.
    case_decide; [subst parent|done]. right.
    destruct HP as [HP|(t0 & e & Ht0 & HP)].
    + exists t. eexists. split; [congruence|done].
    + exists t0. eexists. split; [done|].
      rewrite Ht in HP. injection HP as ->. by rewrite insert_insert_eq.
  - intros b s0 HP. by rewrite accessors_set_root.
Qed.

(** X6: the handler for one class changes little of the others.  It
    leaves the root flag of every other class as it was; it leaves the
    table of every class that is not an ancestor of the new class as it
    was; and on any other class it neither installs nor removes a table,
    and changes at most the entry for the new class. *)
Theorem handler_frame T fuel sender s c :
  wf_hierarchy T →
  (c ≠ sender →
   is_root (snd (prepare_polymorphic_model T fuel sender s)) c = is_root s c)
  ∧ (issubclass T sender c = false →
     accessors (snd (prepare_polymorphic_model T fuel sender s)) c
     = accessors s c)
  ∧ (c ≠ sender →
     accessors (snd (prepare_polymorphic_model T fuel sender s)) c
     = accessors s c
     ∨ ∃ t e, accessors s c = Some t
              ∧ accessors (snd (prepare_polymorphic_model T fuel sender s)) c
                = Some (<[sender := e]> t)).
Proof.
  intros wf. split; [|split].
  - intros Hc. apply prepare_root_other. by left.
  - intros Hsub. apply prepare_table_unrelated.
    intros Hyes%issubclass_spec; [congruence|done].
  - apply prepare_table_other.
Qed.

Lemma handler_frame_witness :
  is_root (snd (prepare_polymorphic_model linear3 10 Leaf registered2)) Root
  = Some true
  ∧ accessors (snd (prepare_polymorphic_model linear3 10 Leaf registered2))
      ContentType = None.
Proof.
  split.
  - rewrite (proj1 (handler_frame linear3 10 Leaf registered2 Root
                      linear3_wf)); [reflexivity|discriminate].
  - rewrite (proj1 (proj2 (handler_frame linear3 10 Leaf registered2
                             ContentType linear3_wf))); reflexivity.
Defined.

(** ** The table of the new class *)

Lemma prepare_own_table T fuel sender s :
  wf_hierarchy T →
  issubclass T sender BasePolymorphicModel = true →
  discriminator_declared T sender →
  fst (prepare_polymorphic_model T fuel sender s) ≠ OutOfFuel →
  accessors (snd (prepare_polymorphic_model T fuel sender s)) sender
  = Some (if records T sender
          then {[sender := ([], proxy_marker T sender, "")]} else ∅).
Proof.
  intros wf Hpoly (name & Hname & Hfield).
  unfold prepare_polymorphic_model, meta in *.
  rewrite Hpoly, Hname, Hfield. cbn [is_ForeignKey rel_to_is negb orb].
  rewrite Nat.eqb_refl. cbn [negb].
  change (if proxy (cls_meta (get_class T sender)) then Some sender else None)
    with (proxy_marker T sender).
  destruct fuel as [|fuel].
  { cbn [while_parents fst]. by intros []. }
  assert (accessors
            (snd (while_parents T (S fuel) sender (proxy_marker T sender)
                    [sender] [] None (set_subclass_accessors sender ∅ s)))
            sender
          = Some (if records T sender
                  then {[sender := ([], proxy_marker T sender, "")]} else ∅))
    as Htable.
  { cbn [while_parents]. rewrite Hpoly.
    fold (accessors (set_subclass_accessors sender ∅ s) sender).
    rewrite accessors_set, decide_True by done.
    unfold records. rewrite Hpoly. cbn [andb].
    assert (Forall (λ p, p < sender) (bases T sender ++ [])) as Hbases.
    { rewrite app_nil_r. apply Forall_forall. intros b Hb. by apply wf. }
    destruct (abstract (cls_meta (get_class T sender))) eqn:Habs;
      unfold meta; rewrite Habs; cbn [negb];
      apply (while_parents_preserves T sender (proxy_marker T sender)
               (λ p, p < sender)
               (λ s', accessors s' sender = Some _)); try done.
    - intros p b Hp Hb. pose proof (wf _ _ Hb). lia.
    - intros parent attrs t s0 Hparent _ HP _. rewrite accessors_set.
      rewrite decide_False by lia. done.
    - by rewrite accessors_set, decide_True.
    - intros p b Hp Hb. pose proof (wf _ _ Hb). lia.
    - intros parent attrs t s0 Hparent _ HP _. rewrite accessors_set.
      rewrite decide_False by lia. done.
    - rewrite !accessors_set, !decide_True by done.
      by rewrite insert_empty. }
  destruct (while_parents _ _ _ _ _ _ _ _) as [[[r|]|e|] s1]; cbn [fst snd] in *;
    intros _; by rewrite ?accessors_set_root.
Qed.

Lemma prepare_raise_keeps_flag T fuel sender s :
  fst (prepare_polymorphic_model T fuel sender s) ≠ Return tt →
  is_root (snd (prepare_polymorphic_model T fuel sender s)) sender
  = is_root s sender.
Proof.
  unfold prepare_polymorphic_model.
  destruct (issubclass T sender BasePolymorphicModel); [|done].
  pass_checks.
  pose proof (while_parents_preserves T sender
                (if proxy (cls_meta (get_class T sender))
                 then Some sender else None)
                (λ _, True) (λ s', is_root s' sender = is_root s sender))
    as Hflag.
  specialize (Hflag ltac:(done)).
  specialize (Hflag ltac:(by intros parent attrs t s0 _ _ <- _;
                          apply is_root_set)).
  specialize (Hflag fuel [sender] [] None (set_subclass_accessors sender ∅ s)).
  specialize (Hflag ltac:(by repeat constructor) (is_root_set _ _ _ _)).
  by destruct (while_parents _ _ _ _ _ _ _ _) as [[[r|]|e|] s1].
Qed.

(** X7: once past the three checks, however the handler ends, it has
    replaced the table of the new class: the table holds the class's own
    entry and nothing else (nothing at all for an abstract class), so
    entries recorded there before are gone.  When the handler raises, the
    new table stays and the root flag of the class is not set: nothing is
    rolled back. *)
Theorem handler_replaces_own_table T fuel sender s :
  wf_hierarchy T →
  issubclass T sender BasePolymorphicModel = true →
  discriminator_declared T sender →
  fst (prepare_polymorphic_model T fuel sender s) ≠ OutOfFuel →
  accessors (snd (prepare_polymorphic_model T fuel sender s)) sender
  = Some (if records T sender
          then {[sender := ([], proxy_marker T sender, "")]} else ∅)
  ∧ (fst (prepare_polymorphic_model T fuel sender s) ≠ Return tt →
     is_root (snd (prepare_polymorphic_model T fuel sender s)) sender
     = is_root s sender).
Proof.
  intros wf Hpoly Hdecl Hfuel. split.
  - by apply prepare_own_table.
  - apply prepare_raise_keeps_flag.
Qed.

Lemma handler_replaces_own_table_witness :
  accessors (snd (prepare_polymorphic_model linear3 10 Root registered3)) Root
  = Some {[Root := ([], None, "")]}
  ∧ accessors (snd (prepare_polymorphic_model linear3 10 Leaf ∅)) Leaf
    = Some {[Leaf := ([], None, "")]}.
Proof.
  split.
  - apply (handler_replaces_own_table linear3 10 Root registered3).
    + apply linear3_wf.
    + reflexivity.
    + exists "content_type". split; reflexivity.
    + vm_compute. discriminate.
  - apply (handler_replaces_own_table linear3 10 Leaf ∅).
    + apply linear3_wf.
    + reflexivity.
    + exists "content_type". split; reflexivity.
    + vm_compute. discriminate.
Defined.

(** ** The tables once every class is defined *)

Lemma prepare_return_declared T fuel sender s s' :
  issubclass T sender BasePolymorphicModel = true →
  prepare_polymorphic_model T fuel sender s = (Return tt, s') →
  discriminator_declared T sender.
Proof.
  intros Hpoly. unfold prepare_polymorphic_model, discriminator_declared, meta.
  rewrite Hpoly.
  destruct (cls_content_type_field_name (get_class T sender)) as [name|];
    [|done].
  destruct (get_field (cls_meta (get_class T sender)) name) as [f|] eqn:Hf;
    [|done].
  destruct (negb (is_ForeignKey f) || negb (rel_to_is f ContentType))
    eqn:Hkind; [done|].
  apply wrong_kind_spec in Hkind as ->. intros _. by exists name.
Qed.

(** A handler that returns has written the entry of the new class on
    every concrete polymorphic ancestor. *)
Lemma prepare_adds_key T fuel sender s s' c t :
  wf_hierarchy T →
  issubclass T sender BasePolymorphicModel = true →
  prepare_polymorphic_model T fuel sender s = (Return tt, s') →
  c ≠ sender →
  records T c = true →
  subclass T sender c →
  accessors s c = Some t →
  ∃ e, accessors s' c = Some (<[sender := e]> t).
Proof.
  intros wf Hpoly Hprepare Hc Hrec Hsub Ht.
  destruct (prepare_returns T wf fuel sender s s' Hpoly Hprepare)
    as (r & s1 & Hrun & Hs').
  assert (c ∈ visit_order T [sender]) as Hin.
  { apply visit_order_elem. exists sender. split; [left|].
    apply dfs_complete; [done..|].
    unfold records in Hrec. by apply andb_true_iff in Hrec as [? _]. }
  apply list_elem_of_split_r in Hin as (pre & post & Hsplit & Hlast).
  rewrite Hsplit in Hrun.
  destruct (run_visits_entry T sender (proxy_marker T sender) pre c post
              [] None _ _ _ Hrun Hlast Hrec) as (t' & Ht' & Hentry).
  assert (accessors s' c = Some t') as Hfinal.
  { subst s'. by rewrite accessors_set_root. }
  pose proof (prepare_table_other T fuel sender s c Hc) as Hother.
  rewrite Hprepare in Hother. cbn [snd] in Hother.
  destruct Hother as [Hsame|(t0 & e & Ht0 & Hnew)].
  - assert (t' = t) as -> by congruence.
    eexists. rewrite Hfinal. by rewrite insert_id.
  - exists e. congruence.
Qed.

Lemma prepare_keys T fuel sender s s' c t :
  wf_hierarchy T →
  prepare_polymorphic_model T fuel sender s = (Return tt, s') →
  c ≠ sender →
  records T c = true →
  accessors s c = Some t →
  ∃ t', accessors s' c = Some t'
        ∧ ∀ d, is_Some (t' !! d) ↔
               is_Some (t !! d)
               ∨ (d = sender
                  ∧ issubclass T sender BasePolymorphicModel = true
                  ∧ issubclass T sender c = true).
Proof.
  intros wf Hprepare Hc Hrec Ht.
  destruct (issubclass T sender BasePolymorphicModel) eqn:Hpoly.
  - destruct (issubclass T sender c) eqn:Hsub.
    + destruct (prepare_adds_key T fuel sender s s' c t wf Hpoly Hprepare
                  Hc Hrec) as [e He]; [by apply issubclass_spec|done|].
      exists (<[sender := e]> t). split; [done|]. intros d.
      rewrite lookup_insert_is_Some. split.
      * intros [->|[_ ?]]; [by right|by left].
      * intros [?|(-> & _)]; [|by left].
        destruct (decide (sender = d)); [by left|by right].
    + exists t. split.
      * rewrite <- Ht.
        pose proof (prepare_table_unrelated T fuel sender s c) as Hsame.
        rewrite Hprepare in Hsame. apply Hsame.
        intros Hyes%issubclass_spec; [congruence|done].
      * intros d. split; [by left|]. by intros [?|(_ & _ & [=])].
  - exists t. split.
    + unfold prepare_polymorphic_model in Hprepare. rewrite Hpoly in Hprepare.
      by injection Hprepare as <-.
    + intros d. split; [by left|]. by intros [?|(_ & [=] & _)].
Qed.

Lemma prepare_all_keys T fuel senders s s' c t :
  wf_hierarchy T →
  prepare_all T fuel senders s = (Return tt, s') →
  c ∉ senders →
  records T c = true →
  accessors s c = Some t →
  ∃ t', accessors s' c = Some t'
        ∧ ∀ d, is_Some (t' !! d) ↔
               is_Some (t !! d)
               ∨ (d ∈ senders
                  ∧ issubclass T d BasePolymorphicModel = true
                  ∧ issubclass T d c = true).
Proof.
  intros wf. revert s t. induction senders as [|x senders IH];
    intros s t Hall Hc Hrec Ht.
  - injection Hall as <-. exists t. split; [done|]. intros d.
    split; [by left|]. intros [?|(?%elem_of_nil & _)]; done.
  - apply not_elem_of_cons in Hc as [Hne Hc]. cbn [prepare_all] in Hall.
    destruct (prepare_polymorphic_model T fuel x s) as [[[]|e|] s1]
      eqn:Hprepare; [|done..].
    destruct (prepare_keys T fuel x s s1 c t wf Hprepare Hne Hrec Ht)
      as (t1 & Ht1 & Hkeys1).
    destruct (IH s1 t1 Hall Hc Hrec Ht1) as (t' & Ht' & Hkeys').
    exists t'. split; [done|]. intros d. rewrite Hkeys', Hkeys1.
    rewrite elem_of_cons. split.
    + intros [[?|(-> & ? & ?)]|(? & ? & ?)];
        [by left|right; split; [by left|done]|right; split; [by right|done]].
    + intros [?|([->|?] & ? & ?)];
        [by left; left|by left; right|by right].
Qed.

Lemma prepare_all_app T fuel before after s s' :
  prepare_all T fuel (before ++ after) s = (Return tt, s') →
  ∃ s1, prepare_all T fuel before s = (Return tt, s1)
        ∧ prepare_all T fuel after s1 = (Return tt, s').
Proof.
  revert s. induction before as [|x before IH]; intros s; cbn [app prepare_all].
  - intros Hall. by exists s.
  - destruct (prepare_polymorphic_model T fuel x s) as [[[]|e|] s1];
      [|done..]. apply IH.
Qed.

Lemma filter_seq_before (f : nat → bool) a n before c after :
  List.filter f (seq a n) = before ++ c :: after →
  Forall (λ d, d < c) before.
Proof.
  revert a before. induction n as [|n IH]; intros a before; cbn [seq List.filter].
  - by destruct before.
  - destruct (f a).
    + destruct before as [|b before]; [by constructor|].
      intros [= <- Hrest]. constructor; [|by eapply IH].
      assert (c ∈ List.filter f (seq (S a) n)) as Hc.
      { rewrite Hrest. apply elem_of_app. right. left. }
      apply list_elem_of_In, filter_In in Hc as [Hc%in_seq _]. lia.
    + apply IH.
Qed.

(** X8: once the handler has returned for every class of the table, in
    definition order, the table of a concrete polymorphic class has an
    entry for exactly the concrete polymorphic classes that are the class
    itself or descend from it. *)
Theorem hierarchy_table_domains T fuel s c :
  wf_hierarchy T →
  prepare_hierarchy T fuel = (Return tt, s) →
  c < length T →
  records T c = true →
  ∃ t, accessors s c = Some t
       ∧ ∀ d, is_Some (t !! d) ↔
              d < length T ∧ records T d = true ∧ issubclass T d c = true.
Proof.
  intros wf Hall Hlt Hrec. unfold prepare_hierarchy in Hall.
  pose proof Hrec as [Hpoly Habs%negb_true_iff]%andb_true_iff.
  assert (c ∈ class_prepared T) as Hin by by apply class_prepared_spec.
  apply list_elem_of_split in Hin as (before & after & Hsplit).
  pose proof (class_prepared_NoDup T) as Hnodup. rewrite Hsplit in Hnodup.
  apply NoDup_app in Hnodup as (_ & _ & [Hafter _]%NoDup_cons).
  pose proof (filter_seq_before _ _ _ _ _ _ Hsplit) as Hbefore.
  rewrite Hsplit in Hall.
  apply prepare_all_app in Hall as (sb & _ & Hall).
  cbn [prepare_all] in Hall.
  destruct (prepare_polymorphic_model T fuel c sb) as [[[]|e|] sc]
    eqn:Hprepare; [|done..].
  pose proof (prepare_own_table T fuel c sb wf Hpoly
                (prepare_return_declared T fuel c sb sc Hpoly Hprepare))
    as Hown.
  rewrite Hprepare, Hrec in Hown. specialize (Hown ltac:(done)).
  cbn [snd] in Hown.
  destruct (prepare_all_keys T fuel after sc s c _ wf Hall Hafter Hrec Hown)
    as (t & Ht & Hkeys).
  exists t. split; [done|]. intros d. rewrite Hkeys. split.
  - intros [Hself|(Hd & Hpolyd & Hsub)].
    + destruct (decide (d = c)) as [->|Hne].
      * by rewrite issubclass_refl.
      * rewrite lookup_singleton_ne in Hself by done. by destruct Hself.
    + assert (d ∈ class_prepared T) as [Hltd Habsd]%class_prepared_spec.
      { rewrite Hsplit. apply elem_of_app. right. by right. }
      split; [done|]. split; [|done]. unfold records.
      by rewrite Hpolyd, Habsd.
  - intros (Hltd & [Hpolyd Habsd%negb_true_iff]%andb_true_iff & Hsub).
    assert (d ∈ class_prepared T) as Hd by by apply class_prepared_spec.
    rewrite Hsplit in Hd.
    apply elem_of_app in Hd as [Hd|[->|Hd]%elem_of_cons].
    + apply (proj1 (Forall_forall _ _) Hbefore) in Hd.
      apply issubclass_spec, subclass_le in Hsub; [lia|done..].
    + left. by rewrite lookup_singleton_eq.
    + by right.
Qed.

Lemma hierarchy_table_domains_witness :
  ∃ t, accessors (snd (prepare_hierarchy linear3 10)) Middle = Some t
       ∧ ∀ d, is_Some (t !! d) ↔
              d < length linear3 ∧ records linear3 d = true
              ∧ issubclass linear3 d Middle = true.
Proof.
  apply (hierarchy_table_domains linear3 10).
  - apply linear3_wf.
  - vm_compute. reflexivity.
  - vm_compute. lia.
  - reflexivity.
Defined.

(** ** More on the casts *)

(** X9: a cast to a class that is neither the instance's class, nor an
    ancestor of it, nor a descendant of it raises the type-cast error: the
    table has no entry for such a class, nothing is walked, and the
    instance check fails. *)
Theorem cast_to_unrelated_raises T related model_class s self to t :
  wf_hierarchy T →
  reachable T s →
  accessors s (inst_class self) = Some t →
  issubclass T to (inst_class self) = false →
  issubclass T (inst_class self) to = false →
  t !! to = None
  ∧ type_cast T related model_class s self (Some to)
    = inl (TypeError self to).
Proof.
  intros wf Hreach Ht Hdown Hup.
  assert (t !! to = None) as Hnone.
  { destruct (t !! to) as [a|] eqn:Hto; [|done].
    assert (subclass T to (inst_class self)) as Hsub.
    { eapply accessor_keys_are_subclasses; [done..|]. by rewrite Hto. }
    apply issubclass_spec in Hsub; [congruence|done]. }
  split; [done|].
  rewrite (type_cast_miss T related model_class s self to t Ht Hnone).
  unfold isinstance. by rewrite Hup.
Qed.

Lemma cast_to_unrelated_raises_witness :
  type_cast linear3 child_rows no_model_class registered3
    (new_instance Middle (Some 2%Z)) (Some ContentType)
  = inl (TypeError (new_instance Middle (Some 2%Z)) ContentType).
Proof.
  eapply (cast_to_unrelated_raises linear3 child_rows no_model_class
            registered3 (new_instance Middle (Some 2%Z)) ContentType).
  - apply linear3_wf.
  - apply registered3_reachable.
  - vm_compute. reflexivity.
  - reflexivity.
  - reflexivity.
Defined.

(** The proxy marker of an entry is the key itself when the key is a
    proxy class, and none otherwise. *)
Lemma proxy_marker_of_entries T s c t k (attrs : list string) p lookup :
  reachable T s →
  accessors s c = Some t →
  t !! k = Some (attrs, p, lookup) →
  p = proxy_marker T k.
Proof.
  intros Hreach. revert c t k attrs p lookup.
  induction Hreach as [|fuel sender s _ IH _]; intros c t k attrs p lookup.
  { by unfold accessors, meta_state; rewrite lookup_empty. }
  revert c t k attrs p lookup.
  apply (prepare_preserves (λ _, True)
           (λ s, ∀ c t k (attrs : list string) p lookup,
                accessors s c = Some t → t !! k = Some (attrs, p, lookup) →
                p = proxy_marker T k)); try done.
  - intros s' HP c t k attrs p lookup. rewrite accessors_set.
    case_decide; [|by apply HP]. intros [= <-]. by rewrite lookup_empty.
  - intros parent attrs0 t0 s' _ _ HP Ht0 c t k attrs p lookup.
    rewrite accessors_set. case_decide; [subst|by apply HP].
    intros [= <-]. rewrite lookup_insert. case_decide; [|by eapply HP].
    subst k. by intros [= <- <- <-].
  - intros b s' HP c t k attrs p lookup. rewrite accessors_set_root.
    apply HP.
Qed.

(** X10: when the table has an entry for the target and the walk ends on
    an object, a proxy target always gets a copy of that object in the
    proxy class, and the instance check cannot fail; for a target that is
    not a proxy nothing is copied, and the object the walk ended on is
    returned or refused as it is. *)
Theorem cast_with_entry T related model_class s self to t
    (attrs : list string) p lookup w :
  wf_hierarchy T →
  reachable T s →
  accessors s (inst_class self) = Some t →
  t !! to = Some (attrs, p, lookup) →
  walk related attrs self = inr w →
  type_cast T related model_class s self (Some to)
  = if proxy (meta T to) then inr (copy_fields w to)
    else if isinstance T w to then inr w else inl (TypeError self to).
Proof.
  intros wf Hreach Ht Hentry Hwalk.
  pose proof (proxy_marker_of_entries T s _ t to attrs p lookup Hreach Ht Hentry)
    as ->.
  assert (get_accessor t (Some to) = (attrs, proxy_marker T to, lookup))
    as Hget.
  { unfold get_accessor. by rewrite Hentry. }
  rewrite (type_cast_unfold T related model_class _ _ _ _ _ _ _ Ht Hget).
  rewrite Hwalk. unfold proxy_marker, reinterpret.
  destruct (proxy (meta T to)); [|done].
  by rewrite isinstance_copy_fields.
Qed.

Lemma cast_with_entry_witness :
  type_cast proxied no_rows no_model_class registered_proxied
    (new_instance Animal (Some 9%Z)) (Some Pet)
  = inr (copy_fields (new_instance Animal (Some 9%Z)) Pet).
Proof.
  eapply (cast_with_entry proxied no_rows no_model_class registered_proxied
            (new_instance Animal (Some 9%Z)) Pet _ [] (Some Pet) "").
  - apply wf_hierarchyb_spec. reflexivity.
  - apply prepare_all_reachable; [constructor|]. vm_compute. discriminate.
  - vm_compute. reflexivity.
  - vm_compute. reflexivity.
  - reflexivity.
Defined.

(** ** Saving, then casting *)

Section SaveThenCast.

Variable T : hierarchy.
Variable related : Instance → string → exn + Instance.
Variable model_class : ContentTypeRow → option class_id.
Variable get_content_type : class_id → option string → ContentTypeRow.

(** A cast without a target is the cast to the class of the stored
    content type. *)
Lemma type_cast_default s self c :
  resolve_to T model_class self None = inr (Some c) →
  type_cast T related model_class s self None
  = type_cast T related model_class s self (Some c).
Proof. intros Hto. unfold type_cast. by rewrite Hto. Qed.

(** X11: the instance that [save] hands on for a new row casts, without
    a target, to its own class: the content type stored by [save]
    resolves to the class of the instance, so the cast returns the
    instance, or for a proxy class a copy of it in that class.  The
    registry is taken to give back the class a content type was made
    for. *)
Theorem save_then_type_cast s self name t handed :
  wf_hierarchy T →
  reachable T s →
  records T (inst_class self) = true →
  accessors s (inst_class self) = Some t →
  cls_content_type_field_name (get_class T (inst_class self)) = Some name →
  model_class (get_content_type (inst_class self) (_state_db self))
  = Some (inst_class self) →
  pk self = None →
  save T get_content_type Instance id self = inr handed →
  type_cast T related model_class s handed None
  = inr (if proxy (meta T (inst_class self))
         then copy_fields handed (inst_class self) else handed).
Proof.
  intros wf Hreach Hrec Ht Hname Hregistry Hpk. unfold save.
  rewrite Hpk, Hname. intros [= <-].
  rewrite (type_cast_default _ _ (inst_class self)).
  2:{ unfold resolve_to. cbn [setattr inst_class inst_attrs].
      by rewrite Hname, lookup_insert_eq, Hregistry. }
  pose proof (own_entries_reachable T s wf Hreach _ _ Hrec Ht) as Hown.
  assert (get_accessor t (Some (inst_class self)) =
          ([], proxy_marker T (inst_class self), "")) as Hget.
  { unfold get_accessor. by rewrite Hown. }
  rewrite (type_cast_unfold T related model_class s
             (setattr self name
                (VContentType
                   (get_content_type (inst_class self) (_state_db self))))
             (inst_class self) t _ _ _ Ht Hget).
  cbn [walk]. unfold proxy_marker, reinterpret.
  destruct (proxy (meta T (inst_class self))).
  - by rewrite isinstance_copy_fields.
  - unfold isinstance. cbn [setattr inst_class]. by rewrite issubclass_refl.
Qed.

End SaveThenCast.

Lemma save_then_type_cast_witness :
  save linear3 content_type_of Instance id (new_instance Leaf None)
  = inr (setattr (new_instance Leaf None) "content_type"
           (VContentType (content_type_of Leaf None)))
  ∧ type_cast linear3 no_rows class_of_content_type registered3
      (setattr (new_instance Leaf None) "content_type"
         (VContentType (content_type_of Leaf None))) None
    = inr (setattr (new_instance Leaf None) "content_type"
             (VContentType (content_type_of Leaf None))).
Proof.
  split; [reflexivity|].
  eapply (save_then_type_cast linear3 no_rows class_of_content_type
            content_type_of registered3 (new_instance Leaf None)
            "content_type").
  - apply linear3_wf.
  - apply registered3_reachable.
  - reflexivity.
  - vm_compute. reflexivity.
  - reflexivity.
  - reflexivity.
  - reflexivity.
  - reflexivity.
Defined.

(** ** The last hop of a chain *)

Section LastHop.

Variable T : hierarchy.
Variable sender : class_id.
Variable proxy_ : option class_id.

(** As [while_parents_preserves], with a property of [attrs] that every
    prepended name keeps. *)
Lemma while_parents_preserves_attrs (Q : class_id → Prop)
    (A : list string → Prop) (P : store → Prop) :
  (∀ p b, Q p → b ∈ bases T p → Q b) →
  (∀ parent attrs, Q parent → A attrs → A (accessor_name T parent :: attrs)) →
  (∀ parent attrs t s,
      Q parent → records T parent = true → A attrs → P s →
      accessors s parent = Some t →
      P (set_subclass_accessors parent
           (<[sender := (attrs, proxy_, join LOOKUP_SEP (firstn 1 attrs))]> t) s)) →
  ∀ fuel parents attrs root s,
    Forall Q parents → A attrs → P s →
    P (snd (while_parents T fuel sender proxy_ parents attrs root s)).
Proof.
  intros Hbases Hcons Hwrite fuel.
  induction fuel as [|fuel IH]; intros parents attrs root s HQ HA HP;
    destruct parents as [|parent parents]; simpl; try done.
  apply Forall_cons in HQ as [Hparent HQ].
  assert (Forall Q (bases T parent ++ parents)) as HQ'.
  { apply Forall_app. split; [|done].
    apply Forall_forall. intros b Hb. by eapply Hbases. }
  destruct (issubclass T parent BasePolymorphicModel) eqn:Hpoly; [|by apply IH].
  destruct (abstract (meta T parent)) eqn:Habs; simpl; [by apply IH|].
  destruct (_subclass_accessors (meta_state s parent)) as [t|] eqn:Ht; [|done].
  apply IH; [done| |].
  - destruct (proxy (meta T parent)); simpl; [done|]. by apply Hcons.
  - apply Hwrite; try done. unfold records. by rewrite Hpoly, Habs.
Qed.

End LastHop.

Lemma chains_end_loop T sender fuel parents attrs root s :
  wf_hierarchy T →
  Forall (λ p, p < sender) parents →
  (links T sender = true → last attrs = Some (accessor_name T sender)) →
  chains_end_at_target T s →
  chains_end_at_target T
    (snd (while_parents T fuel sender (proxy_marker T sender)
            parents attrs root s)).
Proof.
  intros wf Hparents Hattrs Hends.
  apply (while_parents_preserves_attrs T sender (proxy_marker T sender)
           (λ p, p < sender)
           (λ attrs, links T sender = true →
                     last attrs = Some (accessor_name T sender))
           (chains_end_at_target T)); try done.
  - intros p b Hp Hb. pose proof (wf _ _ Hb). lia.
  - intros parent attrs0 _ HA Hlinks. specialize (HA Hlinks).
    by destruct attrs0.
  - intros parent attrs0 t0 s' Hparent _ HA HP Ht0 c t k attrs1 p lookup.
    rewrite accessors_set. case_decide; [subst c|by apply HP].
    intros [= <-]. rewrite lookup_insert. case_decide; [subst k|by eapply HP].
    intros [= <- _ _] _. apply HA.
Qed.

Lemma chains_end_reachable T s :
  wf_hierarchy T → reachable T s → chains_end_at_target T s.
Proof.
  intros wf. induction 1 as [|fuel sender s _ IH Hfuel].
  { intros c t k attrs p lookup.
    by unfold accessors, meta_state; rewrite lookup_empty. }
  revert Hfuel. unfold prepare_polymorphic_model.
  destruct (issubclass T sender BasePolymorphicModel) eqn:Hpoly; [|done].
  pass_checks.
  change (if proxy (cls_meta (get_class T sender)) then Some sender else None)
    with (proxy_marker T sender).
  assert (Forall (λ p, p < sender) (bases T sender ++ [])) as Hbases.
  { rewrite app_nil_r. apply Forall_forall. intros b Hb. by apply wf. }
  assert (chains_end_at_target T
            (snd (while_parents T fuel sender (proxy_marker T sender)
                    [sender] [] None (set_subclass_accessors sender ∅ s))) ∨
          fuel = 0) as Hloop.
  { destruct fuel as [|fuel]; [by right|left]. cbn [while_parents].
    rewrite Hpoly. fold (accessors (set_subclass_accessors sender ∅ s) sender).
    rewrite accessors_set. rewrite decide_True by done.
    destruct (abstract (meta T sender)) eqn:Habs; cbn [negb].
    - apply chains_end_loop; [done..| |].
      + unfold links, records. by rewrite Habs, andb_false_r.
      + intros c t k attrs p lookup. rewrite accessors_set.
        case_decide; [|by apply IH]. intros [= <-]. by rewrite lookup_empty.
    - apply chains_end_loop; [done..| |].
      + unfold links. destruct (proxy (meta T sender)); cbn [negb];
          [by rewrite andb_false_r|done].
      + intros c t k attrs p lookup. rewrite !accessors_set.
        case_decide; [subst c|].
        * intros [= <-]. rewrite lookup_insert. case_decide; [done|].
          by rewrite lookup_empty.
        * by apply IH. }
  destruct Hloop as [Hloop| ->].
  - destruct (while_parents _ _ _ _ _ _ _ _) as [[[r|]|e|] s1]; simpl in *;
      intros _; try done.
    intros c t k attrs p lookup. rewrite accessors_set_root. by apply Hloop.
  - done.
Qed.

(** X12: in every store the handler can leave behind, the chain recorded
    on a class for another, concrete class that is not a proxy is not
    empty and ends with the lowercase name of that class: the last
    relation a cast reads is named after its target. *)
Theorem chain_ends_at_target T s c t k (attrs : list string) p lookup :
  wf_hierarchy T →
  reachable T s →
  accessors s c = Some t →
  t !! k = Some (attrs, p, lookup) →
  c ≠ k →
  links T k = true →
  last attrs = Some (lower (object_name (meta T k))) ∧ attrs ≠ [].
Proof.
  intros wf Hreach Ht Hentry Hck Hlinks.
  pose proof (chains_end_reachable T s wf Hreach c t k attrs p lookup
                Ht Hentry Hck Hlinks) as Hlast.
  split; [done|]. by intros ->.
Qed.

Lemma chain_ends_at_target_witness :
  accessors registered3 Root ≫= (λ t, t !! Leaf)
  = Some (["middle"; "leaf"], None, "middle")
  ∧ last ["middle"; "leaf"] = Some (lower (object_name (meta linear3 Leaf)))
  ∧ ["middle"; "leaf"] ≠ [].
Proof.
  split; [vm_compute; reflexivity|].
  eapply (chain_ends_at_target linear3 registered3 Root _ Leaf
            ["middle"; "leaf"] None "middle").
  - apply linear3_wf.
  - apply registered3_reachable.
  - vm_compute. reflexivity.
  - vm_compute. reflexivity.
  - discriminate.
  - reflexivity.
Defined.

(** ** The entries once every class is defined *)

Lemma prepare_return_fuel T fuel sender s s' :
  wf_hierarchy T →
  issubclass T sender BasePolymorphicModel = true →
  prepare_polymorphic_model T fuel sender s = (Return tt, s') →
  traversal_cost T sender ≤ fuel.
Proof.
  intros wf Hpoly. unfold prepare_polymorphic_model. rewrite Hpoly.
  pass_checks.
  destruct (while_parents _ _ _ _ _ _ _ _) as [[[r|]|e|] s1] eqn:Hloop;
    try done.
  intros _. eapply while_parents_return_fuel; [done|]. by rewrite Hloop.
Qed.

Lemma prepare_entry T fuel sender s s' pre c post :
  wf_hierarchy T →
  issubclass T sender BasePolymorphicModel = true →
  prepare_polymorphic_model T fuel sender s = (Return tt, s') →
  visit_order T [sender] = pre ++ c :: post →
  c ∉ post →
  records T c = true →
  ∃ t, accessors s' c = Some t
       ∧ t !! sender =
         Some (chain_before T pre, proxy_marker T sender,
               match chain_before T pre with [] => "" | a :: _ => a end).
Proof.
  intros wf Hpoly Hprepare Hsplit Hlast Hrec.
  destruct (prepare_returns T wf fuel sender s s' Hpoly Hprepare)
    as (r & s1 & Hrun & ->).
  rewrite Hsplit in Hrun.
  destruct (run_visits_entry T sender (proxy_marker T sender) pre c
              post [] None _ _ _ Hrun Hlast Hrec) as (t & Ht & Hentry).
  exists t. rewrite accessors_set_root. split; [done|].
  rewrite Hentry, app_nil_r. by rewrite join_first_hop.
Qed.

(** Handlers for other classes keep an entry. *)
Lemma prepare_all_entry_kept T fuel senders s s' c d t e :
  prepare_all T fuel senders s = (Return tt, s') →
  c ∉ senders →
  d ∉ senders →
  accessors s c = Some t →
  t !! d = Some e →
  ∃ t', accessors s' c = Some t' ∧ t' !! d = Some e.
Proof.
  revert s t. induction senders as [|x senders IH]; intros s t Hall Hc Hd Ht He.
  - injection Hall as <-. by exists t.
  - apply not_elem_of_cons in Hc as [Hcx Hc].
    apply not_elem_of_cons in Hd as [Hdx Hd]. cbn [prepare_all] in Hall.
    pose proof (prepare_table_other T fuel x s c Hcx) as Hother.
    destruct (prepare_polymorphic_model T fuel x s) as [[[]|e'|] s1];
      [|done..]. cbn [snd] in Hother.
    destruct Hother as [Hsame|(t0 & e0 & Ht0 & Hnew)].
    + eapply IH; [done..| |done]. congruence.
    + eapply (IH s1 (<[x := e0]> t0)); [done..|].
      rewrite lookup_insert_ne by done. congruence.
Qed.

Lemma filter_seq_after (f : nat → bool) a n before c after :
  List.filter f (seq a n) = before ++ c :: after →
  Forall (λ d, c < d) after.
Proof.
  revert a before. induction n as [|n IH]; intros a before; cbn [seq List.filter].
  - by destruct before.
  - destruct (f a); [|apply IH].
    destruct before as [|b before].
    + intros [= <- Hrest]. apply Forall_forall. intros d Hd.
      rewrite <- Hrest in Hd.
      apply list_elem_of_In, filter_In in Hd as [Hd%in_seq _]. lia.
    + intros [= <- Hrest]. by eapply IH.
Qed.

(** X13: once the handler has returned for every class of the table, in
    definition order, the table of a concrete polymorphic class still
    holds, for each concrete polymorphic class below it, the entry written
    when that class was defined: the lowercase names of the concrete,
    non-proxy polymorphic classes the traversal of that class visits
    before the ancestor, the one visited last first.  Handlers that run
    later do not disturb it. *)
Theorem hierarchy_entries T fuel s d c pre post :
  wf_hierarchy T →
  prepare_hierarchy T fuel = (Return tt, s) →
  d < length T →
  records T d = true →
  records T c = true →
  visited T fuel [d] = pre ++ c :: post →
  c ∉ post →
  ∃ t, accessors s c = Some t
       ∧ t !! d =
         Some (chain_before T pre, proxy_marker T d,
               match chain_before T pre with [] => "" | a :: _ => a end).
Proof.
  intros wf Hall Hlt Hrecd Hrecc Hsplit Hlast. unfold prepare_hierarchy in Hall.
  pose proof Hrecd as [Hpoly Habs%negb_true_iff]%andb_true_iff.
  assert (d ∈ class_prepared T) as Hin by by apply class_prepared_spec.
  apply list_elem_of_split in Hin as (before & after & Hprepared).
  pose proof (class_prepared_NoDup T) as Hnodup. rewrite Hprepared in Hnodup.
  apply NoDup_app in Hnodup as (_ & _ & [Hd _]%NoDup_cons).
  pose proof (filter_seq_after _ _ _ _ _ _ Hprepared) as Hafter.
  rewrite Hprepared in Hall.
  apply prepare_all_app in Hall as (sb & _ & Hall).
  cbn [prepare_all] in Hall.
  destruct (prepare_polymorphic_model T fuel d sb) as [[[]|e|] sd]
    eqn:Hprepare; [|done..].
  rewrite (visited_complete T wf) in Hsplit
    by by eapply prepare_return_fuel.
  destruct (prepare_entry T fuel d sb sd pre c post wf Hpoly Hprepare
              Hsplit Hlast Hrecc) as (t0 & Ht0 & Hentry).
  assert (c ∉ after) as Hc.
  { intros Hin. apply (proj1 (Forall_forall _ _) Hafter) in Hin.
    assert (c ∈ visit_order T [d]) as Hvisit.
    { rewrite Hsplit. apply elem_of_app. right. left. }
    apply visit_order_sound in Hvisit
      as (p & ->%list_elem_of_singleton & Hsub%subclass_le); [lia|done]. }
  by eapply prepare_all_entry_kept.
Qed.

Lemma hierarchy_entries_witness :
  ∃ t, accessors (snd (prepare_hierarchy linear3 10)) Root = Some t
       ∧ t !! Middle =
         Some (chain_before linear3 [Middle], proxy_marker linear3 Middle,
               match chain_before linear3 [Middle] with
               | [] => ""
               | a :: _ => a
               end).
Proof.
  apply (hierarchy_entries linear3 10 (snd (prepare_hierarchy linear3 10))
           Middle Root [Middle]
           [PolymorphicModel; BasePolymorphicModel; Model]).
  - apply linear3_wf.
  - vm_compute. reflexivity.
  - vm_compute. lia.
  - reflexivity.
  - reflexivity.
  - reflexivity.
  - rewrite !not_elem_of_cons. repeat split; try discriminate.
    apply not_elem_of_nil.
Defined.

(** ** Defining the classes in order *)

Lemma prepare_range_returns T fuel :
  wf_hierarchy T →
  (∀ c, c < length T → traversal_cost T c ≤ fuel) →
  (∀ c, c < length T → records T c = true → discriminator_declared T c) →
  ∀ n a s,
    a + n = length T →
    (∀ c, c < a → records T c = true → is_Some (accessors s c)) →
    fst (prepare_all T fuel
           (List.filter (λ c, negb (abstract (meta T c))) (seq a n)) s)
    = Return tt.
Proof.
  intros wf Hfuel Hdecl n.
  induction n as [|n IH]; intros a s Hrange Htables; [done|].
  cbn [seq List.filter].
  destruct (abstract (meta T a)) eqn:Habs; cbn [negb].
  - apply IH; [lia|]. intros c Hc Hrec.
    destruct (decide (c = a)) as [->|Hne]; [|apply Htables; [lia|done]].
    unfold records in Hrec. by rewrite Habs, andb_false_r in Hrec.
  - cbn [prepare_all].
    destruct (issubclass T a BasePolymorphicModel) eqn:Hpoly.
    + assert (records T a = true) as Hrec.
      { unfold records. by rewrite Hpoly, Habs. }
      destruct (Hdecl a ltac:(lia) Hrec) as (name & Hname & Hfield).
      pose proof (prepare_succeeds T fuel a s name wf (Hfuel a ltac:(lia))
                    Hrec Hname Hfield) as Hreturns.
      assert (fst (prepare_polymorphic_model T fuel a s) = Return tt) as Hret.
      { apply Hreturns. intros b Hb Hsub Hrecb. apply Htables; [|done].
        apply issubclass_spec, subclass_le in Hsub; [lia|done..]. }
      pose proof (prepare_own_table T fuel a s wf Hpoly
                    (ex_intro _ name (conj Hname Hfield))) as Hown.
      rewrite Hret in Hown. specialize (Hown ltac:(done)).
      assert (∀ c, c ≠ a → is_Some (accessors s c) →
                   is_Some (accessors
                              (snd (prepare_polymorphic_model T fuel a s)) c))
        as Hkept.
      { intros c Hc [t Ht].
        destruct (prepare_table_other T fuel a s c Hc)
          as [->|(t0 & e & _ & ->)]; by eexists. }
      destruct (prepare_polymorphic_model T fuel a s) as [out s1].
      cbn [fst snd] in *. subst out.
      apply IH; [lia|]. intros c Hc Hrecc.
      destruct (decide (c = a)) as [->|Hne]; [by eexists|].
      apply Hkept; [done|]. apply Htables; [lia|done].
    + unfold prepare_polymorphic_model. rewrite Hpoly.
      apply IH; [lia|]. intros c Hc Hrec.
      destruct (decide (c = a)) as [->|Hne]; [|apply Htables; [lia|done]].
      unfold records in Hrec. by rewrite Hpoly in Hrec.
Qed.

(** X14: when every concrete polymorphic class of the table passes the
    three checks, the handler returns for every class, in definition
    order: each concrete polymorphic ancestor already has its table when
    a class is defined, so no class definition fails. *)
Theorem definition_order_succeeds T fuel :
  wf_hierarchy T →
  (∀ c, c < length T → traversal_cost T c ≤ fuel) →
  (∀ c, c < length T → records T c = true → discriminator_declared T c) →
  fst (prepare_hierarchy T fuel) = Return tt.
Proof.
  intros wf Hfuel Hdecl. unfold prepare_hierarchy, class_prepared.
  apply prepare_range_returns; try done.
  intros c Hc. lia.
Qed.

Lemma definition_order_succeeds_witness :
  fst (prepare_hierarchy two_bases 7) = Return tt.
Proof.
  apply (definition_order_succeeds two_bases 7).
  - apply wf_hierarchyb_spec. reflexivity.
  - intros c Hc. do 8 (destruct c as [|c]; [vm_compute; lia|]).
    vm_compute in Hc. lia.
  - intros c Hc Hrec.
    do 7 (destruct c as [|c]; [vm_compute in Hrec; discriminate|]).
    destruct c as [|c]; [|vm_compute in Hc; lia].
    exists "kind". split; reflexivity.
Defined.
